(** * hubspot-local-dev-lib: the port manager server and config generation

    A shallow embedding of [src/utils/PortManagerServer.ts], of
    [generateConfig], [getOrderedAccount] and [getOrderedConfig] from
    [src/config/configUtils.ts], and of [validateConfig] and
    [accountNameExistsInConfig] from [src/config/config_DEPRECATED.ts], with
    the properties of the port registry and of the config functions stated
    over it.

    Modelling conventions.
    - [serverPortMap] is a JavaScript object created by [{}] and used as a
      dictionary; its own properties are a [gmap string Z].  Reading
      [serverPortMap[id]] goes through the prototype chain: where there is no
      own property, the names of [Object.prototype] read as its members,
      which are truthy.  Assigning a number to [__proto__] runs the inherited
      setter, which ignores it.
    - Port numbers are integers ([Z]).  JavaScript truthiness of a number is
      "different from 0"; [undefined] is falsy.
    - An Express response object accepts one [send]; a second [send] on the
      same response raises [ERR_HTTP_HEADERS_SENT].  The response a client
      receives is the one recorded in [sent].
    - Handlers run in a state-and-exception monad over the server object and
      the response object of the request being served.  One request is
      served from start to end; interleaving of several requests at an
      [await] is not modelled.
    - An object handled by the config functions is the list of its own
      properties in property order: keys that are array indices first, in
      ascending numeric order, then the other keys in the order in which
      they were created.
    - [debug] only logs and is left out. *)

From stdpp Require Import gmap strings list fin_maps sorting.

(** ** JavaScript values, messages and errors *)

Inductive Value :=
| VStr (s : string)
| VNum (n : Z)
| VInherited (member : string)   (* [Object.prototype[member]] *)
| VUndefined.

(** [i18n(key, interpolation)]: the language table is not part of the
    sources, so a translated text is kept as the lookup key together with
    the interpolation data handed to it. *)
Record Text := i18n { textKey : string; textData : list (string * Value) }.

(** Errors.  [SystemError] stands for an error object raised by the runtime
    or by a library, carrying its [code] property when it has one.
    [ErrorWithMessage] is what [throwErrorWithMessage(identifier,
    interpolation, cause)] throws; [standardErrors] is not part of the
    sources, so the thrown error records the three arguments of the call. *)
#[warnings="-register-all"]
Inductive BaseError :=
| SystemError (errCode : option string) (errText : string)
| ErrorWithMessage (identifier : string)
                   (interpolation : list (string * Value))
                   (cause : option BaseError).

Definition code (e : BaseError) : option string :=
  match e with
  | SystemError c _ => c
  | ErrorWithMessage _ _ _ => None
  end.

Definition ERR_HTTP_HEADERS_SENT : BaseError :=
  SystemError (Some "ERR_HTTP_HEADERS_SENT")
              "Cannot set headers after they are sent to the client".

(** Truthiness of a number, and of a property read that may be [undefined]. *)
Definition truthy (n : Z) : bool := negb (n =? 0)%Z.
#[global] Arguments truthy : simpl never.

Definition truthy_opt (o : option Z) : bool :=
  match o with
  | Some n => truthy n
  | None => false
  end.

(** ** The server object and the response object *)

Abbreviation ServerPortMap := (gmap string Z).

Record PortManagerServer := {
  app : bool;            (* [this.app] is set *)
  server : bool;         (* [this.server] is set *)
  serverPortMap : ServerPortMap
}.

(** [constructor()] *)
Definition constructor : PortManagerServer :=
  {| app := false; server := false; serverPortMap := ∅ |}.

Inductive Body :=
| SendText (t : Text)
| SendPort (port : Z)                                 (* [{ port }] *)
| SendInheritedPort (member : string)
    (* [{ port }] with [port] the member of [Object.prototype] *)
| SendPorts (ports : list Z)                          (* [{ ports }] *)
| SendServers (servers : ServerPortMap) (count : nat) (* [{ servers, count }] *)
| SendStatusText (status : Z).                        (* [res.send(200)] *)

Record Response := {
  statusCode : Z;
  sent : option (Z * Body)
}.

Definition freshResponse : Response := {| statusCode := 200; sent := None |}.

Record HandlerState := {
  this : PortManagerServer;
  res : Response
}.

(** ** The handler monad *)

Inductive Outcome (A : Type) :=
| Returned (a : A)
| Thrown (e : BaseError).
Arguments Returned {A} a.
Arguments Thrown {A} e.

Definition Handler (A : Type) : Type := HandlerState → Outcome A * HandlerState.

#[global] Instance Handler_ret : MRet Handler := λ A a st, (Returned a, st).

#[global] Instance Handler_bind : MBind Handler := λ A B f m st,
  match m st with
  | (Returned a, st') => f a st'
  | (Thrown e, st') => (Thrown e, st')
  end.

Definition throw {A} (e : BaseError) : Handler A := λ st, (Thrown e, st).

Definition getServerPortMap : Handler ServerPortMap :=
  λ st, (Returned (serverPortMap (this st)), st).

Definition putServerPortMap (m : ServerPortMap) : Handler unit :=
  λ st, (Returned tt,
         {| this := {| app := app (this st); server := server (this st);
                       serverPortMap := m |};
            res := res st |}).

(** [if (c) { h }] without an [else]. *)
Definition when_ (c : bool) (h : Handler unit) : Handler unit :=
  if c then h else mret tt.

(** [res.status(c)] *)
Definition res_status (c : Z) : Handler unit :=
  λ st, (Returned tt,
         {| this := this st;
            res := {| statusCode := c; sent := sent (res st) |} |}).

(** [res.send(body)] *)
Definition res_send (b : Body) : Handler unit :=
  λ st, match sent (res st) with
        | None =>
            (Returned tt,
             {| this := this st;
                res := {| statusCode := statusCode (res st);
                          sent := Some (statusCode (res st), b) |} |})
        | Some _ => (Thrown ERR_HTTP_HEADERS_SENT, st)
        end.

(** [res.send(n)] with a number: the number is the status, the body its
    status text. *)
Definition res_send_number (n : Z) : Handler unit :=
  res_status n ;; res_send (SendStatusText n).

(** [array.forEach((x, index) => ...)], starting at [index]. *)
Fixpoint forEach {A} (f : A → nat → Handler unit) (l : list A) (index : nat)
  : Handler unit :=
  match l with
  | [] => mret tt
  | x :: l' => f x index ;; forEach f l' (S index)
  end.

(** [forEach] whose callback updates a local variable of the enclosing
    function: the variable is threaded through. *)
Fixpoint forEachWith {A L} (f : A → L → Handler L) (l : list A) (local : L)
  : Handler L :=
  match l with
  | [] => mret local
  | x :: l' => local' ← f x local; forEachWith f l' local'
  end.

(** A promise, by what it settles to. *)
Inductive Settled :=
| Resolved (port : Z)
| Rejected (e : BaseError).

(** [await Promise.all(promises)]: the values in the order of the promises,
    or the rejection of a promise that rejects (the first one in the list). *)
Fixpoint Promise_all (promises : list Settled) : Handler (list Z) :=
  match promises with
  | [] => mret []
  | Resolved p :: rest => ps ← Promise_all rest; mret (p :: ps)
  | Rejected e :: _ => throw e
  end.

(** [array[index]] read as a property key: out of range it is [undefined]. *)
Definition at_index (l : list string) (index : nat) : string :=
  default "undefined" (l !! index).

(** The property names every object created by [{}] inherits from
    [Object.prototype]; reading one of them from such an object gives a
    truthy value. *)
Definition Object_prototype_names : list string :=
  ["constructor"; "__defineGetter__"; "__defineSetter__"; "hasOwnProperty";
   "__lookupGetter__"; "__lookupSetter__"; "isPrototypeOf";
   "propertyIsEnumerable"; "toString"; "valueOf"; "__proto__";
   "toLocaleString"].

(** What reading [this.serverPortMap[instanceId]] gives: the own property,
    else the member of [Object.prototype] of that name, else [undefined]. *)
Inductive PortRead :=
| OwnPort (port : Z)
| InheritedMember
| NoProperty.

Definition readPort (m : ServerPortMap) (instanceId : string) : PortRead :=
  match m !! instanceId with
  | Some port => OwnPort port
  | None =>
      if bool_decide (instanceId ∈ Object_prototype_names)
      then InheritedMember else NoProperty
  end.

Definition truthy_read (r : PortRead) : bool :=
  match r with
  | OwnPort port => truthy port
  | InheritedMember => true
  | NoProperty => false
  end.

Definition read_value (instanceId : string) (r : PortRead) : Value :=
  match r with
  | OwnPort port => VNum port
  | InheritedMember => VInherited instanceId
  | NoProperty => VUndefined
  end.

(** [m[instanceId] = port]: an own property is created or updated, except
    that with no own [__proto__] the assignment reaches the setter inherited
    from [Object.prototype], which ignores a number. *)
Definition assignProperty (m : ServerPortMap) (instanceId : string) (port : Z)
  : ServerPortMap :=
  if bool_decide (instanceId = "__proto__") && bool_decide (m !! instanceId = None)
  then m
  else <[instanceId := port]> m.

(** ** PortManagerServer *)

Definition i18nKey : string := "utils.PortManagerServer".

Section PortManagerServer.

(** [../constants/ports] is not part of the sources. *)
Variables MIN_PORT_NUMBER MAX_PORT_NUMBER PORT_MANAGER_SERVER_PORT : Z.

(** [./detectPort] is not part of the sources.  [detectPort n port] is what
    the promise of the [n]-th call (counted from 0 within one request)
    of [detectPort(port)] settles to. *)
Variable detectPort : nat → option Z → Settled.

(** The text of [`${i18n}`]: interpolating the function [i18n] into a
    template literal yields its source text. *)
Variable i18n_toString : string.

(** What [this.app.listen(PORT_MANAGER_SERVER_PORT, ...)] does: the
    callback runs ([None]) or the ['error'] event fires ([Some err]). *)
Definition listen (bind : option BaseError) : Handler unit :=
  match bind with
  | None => mret tt
  | Some err => throw err
  end.

Definition getApp : Handler bool :=
  λ st, (Returned (app (this st)), st).

Definition setApp : Handler unit :=
  λ st, (Returned tt,
         {| this := {| app := true; server := server (this st);
                       serverPortMap := serverPortMap (this st) |};
            res := res st |}).

Definition setServer : Handler unit :=
  λ st, (Returned tt,
         {| this := {| app := app (this st); server := true;
                       serverPortMap := serverPortMap (this st) |};
            res := res st |}).

(** [try { ... } catch (e) { handler e }] *)
Definition try_catch {A} (body : Handler A) (handler : BaseError → Handler A)
  : Handler A :=
  λ st, match body st with
        | (Returned a, st') => (Returned a, st')
        | (Thrown e, st') => handler e st'
        end.

Definition init (bind : option BaseError) : Handler unit :=
  hasApp ← getApp;
  when_ hasApp
    (throw (ErrorWithMessage (i18nKey +:+ ".duplicateInstance") [] None)) ;;
  setApp ;;
  try_catch
    (listen bind ;; setServer)
    (λ error,
       when_ (bool_decide (code error = Some "EADDRINUSE"))
         (throw (ErrorWithMessage
                   (i18n_toString +:+ ".portInUse")
                   [("port", VNum PORT_MANAGER_SERVER_PORT)]
                   (Some error))) ;;
       throw error).

Definition setPort (instanceId : string) (port : Z) : Handler unit :=
  m ← getServerPortMap;
  putServerPortMap (assignProperty m instanceId port).

Definition deletePort (instanceId : string) : Handler unit :=
  m ← getServerPortMap;
  putServerPortMap (delete instanceId m).

Definition send404 (instanceId : string) : Handler unit :=
  res_status 404 ;;
  res_send (SendText (i18n ("errors." +:+ i18nKey +:+ ".404")
                           [("instanceId", VStr instanceId)])).

Definition getServers : Handler unit :=
  m ← getServerPortMap;
  res_send (SendServers m (size m)).

Definition getServerPortByInstanceId (instanceId : string) : Handler unit :=
  m ← getServerPortMap;
  match readPort m instanceId with
  | OwnPort port =>
      if truthy port then res_send (SendPort port) else send404 instanceId
  | InheritedMember => res_send (SendInheritedPort instanceId)
  | NoProperty => send404 instanceId
  end.

(** [port && (port < MIN_PORT_NUMBER || port > MAX_PORT_NUMBER)] *)
Definition outOfRange (port : option Z) : bool :=
  truthy_opt port
  && ((default 0 port <? MIN_PORT_NUMBER)%Z
      || (default 0 port >? MAX_PORT_NUMBER)%Z).

(** The callback of [instanceIds.forEach] in [assignPortsToServers];
    [portPromises] is the local array it pushes to. *)
Definition assignCallback (port : option Z) (instanceId : string)
    (portPromises : list Settled) : Handler (list Settled) :=
  m ← getServerPortMap;
  if truthy_read (readPort m instanceId) then
    res_status 409 ;;
    res_send (SendText (i18n ("errors." +:+ i18nKey +:+ ".409")
                             [("instanceId", VStr instanceId);
                              ("port",
                               read_value instanceId
                                          (readPort m instanceId))])) ;;
    mret portPromises
  else if outOfRange port then
    res_status 400 ;;
    res_send (SendText (i18n ("errors." +:+ i18nKey +:+ ".400") [])) ;;
    mret portPromises
  else
    mret (portPromises ++ [detectPort (length portPromises) port]).

Definition assignPortsToServers (instanceIds : list string) (port : option Z)
  : Handler unit :=
  portPromises ← forEachWith (assignCallback port) instanceIds [];
  ports ← Promise_all portPromises;
  forEach (λ port index, setPort (at_index instanceIds index) port) ports 0 ;;
  res_send (SendPorts ports).

Definition deleteServerInstance (instanceId : string) : Handler unit :=
  m ← getServerPortMap;
  if truthy_read (readPort m instanceId) then
    deletePort instanceId ;;
    res_send_number 200
  else
    send404 instanceId.

End PortManagerServer.

(** Serving one request: the handler runs on the server object with a fresh
    response object. *)
Definition serve (h : Handler unit) (srv : PortManagerServer)
  : Outcome unit * HandlerState :=
  h {| this := srv; res := freshResponse |}.

Definition registry_after (r : Outcome unit * HandlerState) : ServerPortMap :=
  serverPortMap (this (snd r)).

Definition response_of (r : Outcome unit * HandlerState) : option (Z * Body) :=
  sent (res (snd r)).

(** ** configUtils: generateConfig *)

(** An entry of [../constants/auth]; only its [value] is read. *)
Record AuthMethod := { value : string }.

(** The [options] argument of [generateConfig]: a JavaScript object that is
    cast to the option type of the chosen method without a check, so every
    property may be [undefined]. *)
Record Options := {
  opt_accountId : option Z;
  opt_env : option string;
  opt_apiKey : option string;
  opt_personalAccessKey : option string;
  opt_clientId : option string;
  opt_clientSecret : option string;
  opt_refreshToken : option string;
  opt_scopes : option (list string)
}.

Record TokenInfo := { refreshToken : option string }.

Record OAuthInfo := {
  clientId : option string;
  clientSecret : option string;
  scopes : option (list string);
  tokenInfo : TokenInfo
}.

Inductive CLIAccount_NEW :=
| APIKeyAccount_NEW (authType : string) (accountId : option Z)
                    (apiKey : option string) (env : option string)
| PersonalAccessKeyAccount_NEW (authType : string) (accountId : option Z)
                               (personalAccessKey : option string)
                               (env : option string)
| OAuthAccount_NEW (authType : string) (accountId : option Z)
                   (auth : OAuthInfo) (env : option string).

Definition authType (account : CLIAccount_NEW) : string :=
  match account with
  | APIKeyAccount_NEW t _ _ _ => t
  | PersonalAccessKeyAccount_NEW t _ _ _ => t
  | OAuthAccount_NEW t _ _ _ => t
  end.

Record CLIConfig_NEW := { accounts : list CLIAccount_NEW }.

Section ConfigUtils.

(** [../constants/auth] is not part of the sources. *)
Variables API_KEY_AUTH_METHOD OAUTH_AUTH_METHOD
          PERSONAL_ACCESS_KEY_AUTH_METHOD : AuthMethod.

Definition generatePersonalAccessKeyAccountConfig (o : Options)
  : CLIAccount_NEW :=
  PersonalAccessKeyAccount_NEW (value PERSONAL_ACCESS_KEY_AUTH_METHOD)
    (opt_accountId o) (opt_personalAccessKey o) (opt_env o).

Definition generateOauthAccountConfig (o : Options) : CLIAccount_NEW :=
  OAuthAccount_NEW (value OAUTH_AUTH_METHOD) (opt_accountId o)
    {| clientId := opt_clientId o;
       clientSecret := opt_clientSecret o;
       scopes := opt_scopes o;
       tokenInfo := {| refreshToken := opt_refreshToken o |} |}
    (opt_env o).

Definition generateApiKeyAccountConfig (o : Options) : CLIAccount_NEW :=
  APIKeyAccount_NEW (value API_KEY_AUTH_METHOD)
    (opt_accountId o) (opt_apiKey o) (opt_env o).

(** [config.accounts.push(configAccount)] *)
Definition push_account (config : CLIConfig_NEW) (account : CLIAccount_NEW)
  : CLIConfig_NEW :=
  {| accounts := accounts config ++ [account] |}.

(** [null] is [None]; an absent (falsy) [options] is [None].  The account
    built in a [case] is an object, hence truthy, so the final
    [if (configAccount)] always pushes. *)
Definition generateConfig (type : string) (options : option Options)
  : option CLIConfig_NEW :=
  match options with
  | None => None
  | Some options =>
      let config := {| accounts := [] |} in
      if String.eqb type (value API_KEY_AUTH_METHOD) then
        Some (push_account config (generateApiKeyAccountConfig options))
      else if String.eqb type (value PERSONAL_ACCESS_KEY_AUTH_METHOD) then
        Some (push_account config
                (generatePersonalAccessKeyAccountConfig options))
      else if String.eqb type (value OAUTH_AUTH_METHOD) then
        Some (push_account config (generateOauthAccountConfig options))
      else None
  end.

End ConfigUtils.

(** ** Registry invariant *)

(** Every recorded port is a number different from 0, so that reading it back
    is truthy.  It holds of the registry built by [constructor] and is kept by
    every handler as long as [detectPort] resolves to such ports (see
    [registry_ok_constructor], [setPort_registry_ok],
    [assignPortsToServers_registry_ok], [deleteServerInstance_registry_ok]). *)
Definition registry_ok (m : ServerPortMap) : Prop :=
  map_Forall (λ _ port, port ≠ 0%Z) m.

(** The registry after [ports.forEach((port, index) => setPort(
    instanceIds[index], port))] started at [index]. *)
Fixpoint recorded (instanceIds : list string) (ports : list Z) (index : nat)
    (m : ServerPortMap) : ServerPortMap :=
  match ports with
  | [] => m
  | port :: ports' =>
      recorded instanceIds ports' (S index)
               (assignProperty m (at_index instanceIds index) port)
  end.

(** The value a promise resolved to (a rejected promise has none; it is
    given [0] here and never read). *)
Definition resolved_port (s : Settled) : Z :=
  match s with
  | Resolved p => p
  | Rejected _ => 0%Z
  end.

Definition text404 (instanceId : string) : Body :=
  SendText (i18n "errors.utils.PortManagerServer.404"
                 [("instanceId", VStr instanceId)]).

Definition text409 (instanceId : string) (port : Z) : Body :=
  SendText (i18n "errors.utils.PortManagerServer.409"
                 [("instanceId", VStr instanceId); ("port", VNum port)]).

(** The 409 text with whatever the read of [serverPortMap[instanceId]]
    gave. *)
Definition text409_read (instanceId : string) (r : PortRead) : Body :=
  SendText (i18n "errors.utils.PortManagerServer.409"
                 [("instanceId", VStr instanceId);
                  ("port", read_value instanceId r)]).

Definition text400 : Body :=
  SendText (i18n "errors.utils.PortManagerServer.400" []).

(** The state after [res.status(status).send(body)]: the first response sent
    stays, a later one only leaves its status code on the object. *)
Definition with_response (st : HandlerState) (status : Z) (b : Body)
  : HandlerState :=
  {| this := this st;
     res := {| statusCode := status;
               sent := match sent (res st) with
                       | None => Some (status, b)
                       | Some first => Some first
                       end |} |}.

Definition send_outcome {A} (st : HandlerState) (a : A) : Outcome A :=
  match sent (res st) with
  | None => Returned a
  | Some _ => Thrown ERR_HTTP_HEADERS_SENT
  end.

(** The constants of [../constants/ports] as the package ships them, for the
    runs below. *)
Definition ports_1024_65535 (detectPort : nat → option Z → Settled) :=
  assignPortsToServers 1024 65535 detectPort.

Definition running (m : ServerPortMap) : PortManagerServer :=
  {| app := true; server := true; serverPortMap := m |}.

(** A detection that resolves to the preferred port when one is given
    (a truthy one) and to 3000, 3001, ... otherwise. *)
Definition detect_preferred (n : nat) (port : option Z) : Settled :=
  Resolved (if truthy_opt port then default 0%Z port
            else (3000 + Z.of_nat n)%Z).

(** A detection whose second call of a request is rejected. *)
Definition detect_second_rejected (n : nat) (port : option Z) : Settled :=
  if (n =? 1)%nat then Rejected (SystemError (Some "EACCES") "permission denied")
  else detect_preferred n port.

(** ** Closing, and the route table *)

Definition getServer : Handler bool :=
  λ st, (Returned (server (this st)), st).

(** [closeServer]: [this.server.close()] acts on the listening socket, which
    is outside the modelled state; the fields of the server object stay as
    they are. *)
Definition closeServer : Handler unit :=
  listening ← getServer;
  when_ listening (res_send_number 200).

(** A request as Express dispatches it to one of the routes of
    [setupRoutes]: the method and path are matched, [:instanceId] and the JSON
    body are parsed. *)
Inductive Request :=
| GET_servers
| GET_servers_instanceId (instanceId : string)
| POST_servers (instanceIds : list string) (port : option Z)
| DELETE_servers_instanceId (instanceId : string)
| POST_close.

(** The handler [setupRoutes] registers for a request. *)
Definition setupRoutes (MIN_PORT_NUMBER MAX_PORT_NUMBER : Z)
    (detectPort : nat → option Z → Settled) (req : Request) : Handler unit :=
  match req with
  | GET_servers => getServers
  | GET_servers_instanceId instanceId => getServerPortByInstanceId instanceId
  | POST_servers instanceIds port =>
      assignPortsToServers MIN_PORT_NUMBER MAX_PORT_NUMBER detectPort
                           instanceIds port
  | DELETE_servers_instanceId instanceId => deleteServerInstance instanceId
  | POST_close => closeServer
  end.

(** The server object after serving a list of requests one after the other,
    each with a response object of its own.  [detect k] settles the
    detections of the [k]-th request.  A handler that throws leaves the
    server object as it was at the throw. *)
Fixpoint serve_all (MIN_PORT_NUMBER MAX_PORT_NUMBER : Z)
    (detect : nat → nat → option Z → Settled) (requests : list Request)
    (k : nat) (srv : PortManagerServer) : PortManagerServer :=
  match requests with
  | [] => srv
  | req :: rest =>
      serve_all MIN_PORT_NUMBER MAX_PORT_NUMBER detect rest (S k)
        (this (snd (serve (setupRoutes MIN_PORT_NUMBER MAX_PORT_NUMBER
                                       (detect k) req) srv)))
  end.

(** The server object with another registry. *)
Definition with_registry (srv : PortManagerServer) (m : ServerPortMap)
  : PortManagerServer :=
  {| app := app srv; server := server srv; serverPortMap := m |}.

(** ** configUtils: key order *)

(** JavaScript values as the ordering functions meet them. *)
#[warnings="-register-all"]
Inductive JsVal :=
| JUndefined
| JNull
| JBool (b : bool)
| JNum (n : Z)
| JStr (s : string)
| JObject (properties : list (string * JsVal))
| JArray (elements : list JsVal).

(** An object by its own enumerable properties in property order: the keys
    that are array indices in ascending numeric order first, then the other
    keys in the order of their creation.  Keys are taken not to repeat. *)
Abbreviation JsObject := (list (string * JsVal)).

Definition js_truthy (v : JsVal) : bool :=
  match v with
  | JUndefined | JNull => false
  | JBool b => b
  | JNum n => negb (n =? 0)%Z
  | JStr s => negb (String.eqb s "")
  | JObject _ | JArray _ => true
  end.

Fixpoint own_property (o : JsObject) (key : string) : option JsVal :=
  match o with
  | [] => None
  | (k, v) :: o' => if decide (k = key) then Some v else own_property o' key
  end.

(** [o.key], [undefined] when there is no such property. *)
Definition prop (o : JsObject) (key : string) : JsVal :=
  default JUndefined (own_property o key).

Definition keys (o : JsObject) : list string := fst <$> o.

(** Array indices: the keys that are the decimal numeral, without a leading
    zero, of an integer from 0 to 2^32 - 2. *)
Definition digit_of (c : Ascii.ascii) : option N :=
  let n := Ascii.N_of_ascii c in
  if (48 <=? n)%N && (n <=? 57)%N then Some (n - 48)%N else None.

Fixpoint digits_value (s : string) (acc : N) : option N :=
  match s with
  | EmptyString => Some acc
  | String c s' =>
      match digit_of c with
      | Some d => digits_value s' (10 * acc + d)%N
      | None => None
      end
  end.

Definition array_index (key : string) : option N :=
  match key with
  | EmptyString => None
  | String c rest =>
      if bool_decide (digit_of c = Some 0%N) then
        if bool_decide (rest = EmptyString) then Some 0%N else None
      else
        match digits_value key 0 with
        | Some n => if (n <? 4294967295)%N then Some n else None
        | None => None
        end
  end.

Definition is_array_index (key : string) : bool :=
  match array_index key with Some _ => true | None => false end.

Definition index_of (kv : string * JsVal) : N :=
  default 0%N (array_index kv.1).

(** A stable sort by ascending index. *)
Fixpoint insert_by_index (x : string * JsVal) (l : JsObject) : JsObject :=
  match l with
  | [] => [x]
  | y :: l' =>
      if (index_of x <=? index_of y)%N then x :: l
      else y :: insert_by_index x l'
  end.

Definition sort_by_index (l : JsObject) : JsObject :=
  foldr insert_by_index [] l.

Definition ascending (o : JsObject) : Prop :=
  Sorted (λ x y, (index_of x ≤ index_of y)%N) o.

(** The object whose properties were created in the order [created]: its
    property order has the array indices first, in ascending order, and then
    the other keys as created. *)
Definition own_properties_order (created : JsObject) : JsObject :=
  sort_by_index (filter (λ kv, is_array_index kv.1) created)
  ++ filter (λ kv, ¬ is_array_index kv.1) created.

(** [const { k1, ..., kn, ...rest } = o]: a new object that receives the
    properties of [o] not picked, in the property order of [o]. *)
Definition rest_of (picked : list string) (o : JsObject) : JsObject :=
  own_properties_order (filter (λ kv, kv.1 ∉ picked) o).

(** [getOrderedAccount]: the object literal defines the four named
    properties (with value [undefined] where the argument has none) and then
    spreads [rest], which has none of these keys. *)
Definition getOrderedAccount (unorderedAccount : JsObject) : JsObject :=
  let name := prop unorderedAccount "name" in
  let accountId := prop unorderedAccount "accountId" in
  let env := prop unorderedAccount "env" in
  let authType := prop unorderedAccount "authType" in
  let rest := rest_of ["name"; "accountId"; "env"; "authType"]
                      unorderedAccount in
  own_properties_order
    ([("name", name); ("accountId", accountId); ("env", env);
      ("authType", authType)] ++ rest).

(** A config object of type [CLIConfig_NEW]: [accounts] is an array of
    account objects.  It is given by its other properties, in property order,
    and by that array; where [accounts] stands among the keys of an argument
    makes no difference to [getOrderedConfig], and in its result [accounts] is
    the key created last, so the last key. *)
Record ConfigObject := {
  settings : JsObject;
  accountObjects : list JsObject
}.

(** [...(v && { key: v })]: one property when [v] is truthy, none when it is
    falsy. *)
Definition spread_if_truthy (key : string) (v : JsVal) : JsObject :=
  if js_truthy v then [(key, v)] else [].

Definition getOrderedConfig (unorderedConfig : ConfigObject) : ConfigObject :=
  let defaultAccount := prop (settings unorderedConfig) "defaultAccount" in
  let defaultMode := prop (settings unorderedConfig) "defaultMode" in
  let httpTimeout := prop (settings unorderedConfig) "httpTimeout" in
  let allowUsageTracking :=
    prop (settings unorderedConfig) "allowUsageTracking" in
  let rest := rest_of ["defaultAccount"; "defaultMode"; "httpTimeout";
                       "allowUsageTracking"; "accounts"]
                      (settings unorderedConfig) in
  {| settings :=
       own_properties_order
         (spread_if_truthy "defaultAccount" defaultAccount
          ++ [("defaultMode", defaultMode); ("httpTimeout", httpTimeout);
              ("allowUsageTracking", allowUsageTracking)]
          ++ rest);
     accountObjects := getOrderedAccount <$> accountObjects unorderedConfig |}.

(** ** config_DEPRECATED: validateConfig *)

(** An entry of [config.portals], by the two properties [validateConfig] and
    [accountNameExistsInConfig] read; either may be [undefined]. *)
Record CLIAccount_DEPRECATED := {
  portalId : option Z;
  name : option string
}.

(** The config held in the module variable [_config]: [portals] is [None]
    when the property is not an array; an entry of the array is [None] when
    it is empty ([null] or [undefined]). *)
Record CLIConfig_DEPRECATED := {
  portals : option (list (option CLIAccount_DEPRECATED))
}.

(** [hash[key]] is truthy, for a hash created by [{}] whose own keys are
    [hash] and whose own values are objects. *)
Definition hash_truthy (hash : gset string) (key : string) : bool :=
  bool_decide (key ∈ Object_prototype_names) || bool_decide (key ∈ hash).

(** [cfg.name] when it is truthy: a string that is not empty. *)
Definition truthy_name (cfg : CLIAccount_DEPRECATED) : option string :=
  match name cfg with
  | Some n => if String.eqb n "" then None else Some n
  | None => None
  end.

Section ValidateConfig.

(** [/\s+/.test(s)]: whether [s] contains a white space character. *)
Variable has_whitespace : string → bool.

(** [accounts.every(cfg => ...)] of [validateConfig], with the two hashes the
    callback fills; [console.error] only logs and is left out. *)
Fixpoint every_account_valid (accounts : list (option CLIAccount_DEPRECATED))
    (accountIdsHash : gset Z) (accountNamesHash : gset string) : bool :=
  match accounts with
  | [] => true
  | None :: _ => false
  | Some cfg :: rest =>
      match portalId cfg with
      | None => false
      | Some accountId =>
          if negb (truthy accountId) then false
          else if bool_decide (accountId ∈ accountIdsHash) then false
          else
            match truthy_name cfg with
            | Some n =>
                if hash_truthy accountNamesHash n then false
                else if has_whitespace n then false
                else every_account_valid rest ({[accountId]} ∪ accountIdsHash)
                                         ({[n]} ∪ accountNamesHash)
            | None =>
                every_account_valid rest ({[accountId]} ∪ accountIdsHash)
                                    accountNamesHash
            end
      end
  end.

Definition validateConfig (_config : option CLIConfig_DEPRECATED) : bool :=
  match _config with
  | None => false
  | Some config =>
      match portals config with
      | None => false
      | Some accounts => every_account_valid accounts ∅ ∅
      end
  end.

(** What makes one entry acceptable on its own. *)
Definition entry_valid (entry : option CLIAccount_DEPRECATED) : Prop :=
  ∃ cfg accountId,
    entry = Some cfg ∧ portalId cfg = Some accountId ∧ accountId ≠ 0%Z ∧
    ∀ n, truthy_name cfg = Some n →
         (n ∉ Object_prototype_names) ∧ has_whitespace n = false.

End ValidateConfig.

(** [accounts.some(cfg => cfg.name && cfg.name === name)]: reading [name]
    from an empty entry throws a TypeError, which is [None] here. *)
Fixpoint some_account_named (accounts : list (option CLIAccount_DEPRECATED))
    (wanted : string) : option bool :=
  match accounts with
  | [] => Some false
  | None :: _ => None
  | Some cfg :: rest =>
      match truthy_name cfg with
      | Some n => if String.eqb n wanted then Some true
                  else some_account_named rest wanted
      | None => some_account_named rest wanted
      end
  end.

Definition accountNameExistsInConfig (_config : option CLIConfig_DEPRECATED)
    (wanted : string) : option bool :=
  match _config with
  | None => Some false
  | Some config =>
      match portals config with
      | None => Some false
      | Some accounts => some_account_named accounts wanted
      end
  end.

(** The portal ids, and the truthy names, of the entries that have one. *)
Definition account_ids (accounts : list (option CLIAccount_DEPRECATED))
  : list Z :=
  omap (λ entry, entry ≫= portalId) accounts.

Definition account_names (accounts : list (option CLIAccount_DEPRECATED))
  : list string :=
  omap (λ entry, entry ≫= truthy_name) accounts.

(** * Properties *)

(** ** Reading and releasing assignments *)

(** Running a handler: unfold the monad and the primitive operations. *)
Ltac run_handler :=
  unfold serve, response_of, registry_after, send404, res_send_number,
    setPort, deletePort, mbind, Handler_bind, mret, Handler_ret,
    getServerPortMap, putServerPortMap, res_status, res_send, throw, when_;
  cbn.

(** A closed decidable proposition, by evaluation. *)
Ltac by_decide :=
  match goal with
  | |- ?P => apply (bool_decide_unpack P); vm_compute; exact I
  end.

Lemma registry_ok_constructor : registry_ok (serverPortMap constructor).
Proof. apply map_Forall_empty. Qed.

Lemma registry_ok_truthy (m : ServerPortMap) id p :
  registry_ok m → m !! id = Some p → truthy p = true.
Proof.
  intros Hok Hp. unfold truthy.
  apply negb_true_iff, Z.eqb_neq. exact (map_Forall_lookup_1 _ _ _ _ Hok Hp).
Qed.

(** C7: for every registry state, GET /servers returns normally, answers 200
    with the whole current mapping and a count equal to the number of
    assignments, and leaves the server object as it was. *)
Theorem getServers_lists_registry (srv : PortManagerServer) :
  serve getServers srv =
    (Returned tt,
     {| this := srv;
        res := {| statusCode := 200;
                  sent := Some (200%Z,
                                SendServers (serverPortMap srv)
                                            (size (dom (serverPortMap srv)))) |} |}).
Proof.
  unfold getServers. run_handler. by rewrite size_dom.
Qed.

Lemma readPort_own (m : ServerPortMap) id p :
  m !! id = Some p → readPort m id = OwnPort p.
Proof. intros Hp. unfold readPort. by rewrite Hp. Qed.

Lemma readPort_none (m : ServerPortMap) id :
  m !! id = None → id ∉ Object_prototype_names → readPort m id = NoProperty.
Proof.
  intros Hid Hproto. unfold readPort. rewrite Hid.
  by rewrite bool_decide_eq_false_2.
Qed.

Lemma readPort_inherited (m : ServerPortMap) id :
  m !! id = None → id ∈ Object_prototype_names →
  readPort m id = InheritedMember.
Proof.
  intros Hid Hproto. unfold readPort. rewrite Hid.
  by rewrite bool_decide_eq_true_2.
Qed.

Lemma truthy_read_own (m : ServerPortMap) id p :
  registry_ok m → m !! id = Some p → truthy_read (readPort m id) = true.
Proof.
  intros Hok Hp. rewrite (readPort_own _ _ _ Hp). cbn.
  by eapply registry_ok_truthy.
Qed.

(** C5 (amended): on a registry satisfying the invariant, GET
    /servers/:instanceId answers 200 with the assigned port for an instance
    id that has an assignment, and 404 for an instance id that has none and
    is not the name of a property inherited from [Object.prototype]; the
    server object is not changed. *)
Theorem getServerPortByInstanceId_found_or_404
    (srv : PortManagerServer) (instanceId : string) :
  registry_ok (serverPortMap srv) →
  let r := serve (getServerPortByInstanceId instanceId) srv in
  fst r = Returned tt ∧
  this (snd r) = srv ∧
  match serverPortMap srv !! instanceId with
  | None =>
      instanceId ∉ Object_prototype_names →
      response_of r = Some (404%Z, text404 instanceId)
  | Some port => response_of r = Some (200%Z, SendPort port)
  end.
Proof.
  intros Hok. unfold getServerPortByInstanceId. run_handler.
  destruct (serverPortMap srv !! instanceId) as [port|] eqn:Hid.
  - rewrite (readPort_own _ _ _ Hid), (registry_ok_truthy _ _ _ Hok Hid).
    by destruct srv.
  - unfold readPort. rewrite Hid.
    destruct (bool_decide_reflect (instanceId ∈ Object_prototype_names));
      by destruct srv.
Qed.

Lemma deleteServerInstance_registry_ok (srv : PortManagerServer) instanceId :
  registry_ok (serverPortMap srv) →
  registry_ok (registry_after (serve (deleteServerInstance instanceId) srv)).
Proof.
  intros Hok. unfold deleteServerInstance. run_handler.
  destruct (truthy_read (readPort (serverPortMap srv) instanceId)); cbn;
    [|done].
  by apply map_Forall_delete.
Qed.

(** C6 (amended): on a registry satisfying the invariant, DELETE
    /servers/:instanceId for an instance id with an assignment removes the
    entry and answers 200, and a following GET for that id answers 404 unless
    the id is the name of a property inherited from [Object.prototype]; for
    an instance id without an assignment the server object is left as it was,
    and the answer is 404 unless the id is such a name. *)
Theorem deleteServerInstance_releases
    (srv : PortManagerServer) (instanceId : string) :
  registry_ok (serverPortMap srv) →
  let r := serve (deleteServerInstance instanceId) srv in
  fst r = Returned tt ∧
  match serverPortMap srv !! instanceId with
  | Some port =>
      registry_after r = delete instanceId (serverPortMap srv) ∧
      registry_after r !! instanceId = None ∧
      response_of r = Some (200%Z, SendStatusText 200) ∧
      (instanceId ∉ Object_prototype_names →
       response_of (serve (getServerPortByInstanceId instanceId)
                          (this (snd r)))
         = Some (404%Z, text404 instanceId))
  | None =>
      this (snd r) = srv ∧
      (instanceId ∉ Object_prototype_names →
       response_of r = Some (404%Z, text404 instanceId))
  end.
Proof.
  intros Hok. unfold deleteServerInstance, getServerPortByInstanceId.
  run_handler.
  destruct (serverPortMap srv !! instanceId) as [port|] eqn:Hid.
  - rewrite (truthy_read_own _ _ _ Hok Hid). cbn.
    rewrite lookup_delete_eq. do 4 (split; [done|]).
    intros Hproto.
    rewrite readPort_none by (done || apply lookup_delete_eq). by cbn.
  - unfold readPort. rewrite Hid.
    destruct (bool_decide_reflect (instanceId ∈ Object_prototype_names));
      cbn.
    + rewrite delete_id by done. by destruct srv.
    + by destruct srv.
Qed.

(** ** Assigning ports *)

(** C9: for every registry state, a POST /servers request with an empty
    [instanceIds] list returns normally, answers 200 with an empty ports
    list, and leaves the server object as it was. *)
Theorem assignPortsToServers_empty_batch
    (MIN_PORT_NUMBER MAX_PORT_NUMBER : Z) (detectPort : nat → option Z → Settled)
    (srv : PortManagerServer) (port : option Z) :
  serve (assignPortsToServers MIN_PORT_NUMBER MAX_PORT_NUMBER detectPort [] port)
        srv =
    (Returned tt,
     {| this := srv;
        res := {| statusCode := 200; sent := Some (200%Z, SendPorts []) |} |}).
Proof. reflexivity. Qed.

Lemma Promise_all_resolved (settled : list Settled) (st : HandlerState) :
  Forall (λ s, ∃ p, s = Resolved p) settled →
  Promise_all settled st = (Returned (resolved_port <$> settled), st).
Proof.
  induction 1 as [|s settled [p ->] _ IH]; [done|].
  cbn. unfold mbind, Handler_bind. by rewrite IH.
Qed.

Lemma lookup_assignProperty_ne (m : ServerPortMap) (id id' : string)
    (port : Z) :
  id' ≠ id → assignProperty m id' port !! id = m !! id.
Proof.
  intros Hne. unfold assignProperty.
  destruct (_ && _); [done | by apply lookup_insert_ne].
Qed.

Lemma assignProperty_insert (m : ServerPortMap) (id : string) (port : Z) :
  id ≠ "__proto__" → assignProperty m id port = <[id := port]> m.
Proof.
  intros Hne. unfold assignProperty.
  by rewrite bool_decide_eq_false_2 by done.
Qed.

Lemma lookup_assignProperty_eq (m : ServerPortMap) (id : string) (port : Z) :
  id ≠ "__proto__" → assignProperty m id port !! id = Some port.
Proof.
  intros Hne. unfold assignProperty.
  rewrite bool_decide_eq_false_2 by done. apply lookup_insert_eq.
Qed.

Lemma assignProperty_registry_ok (m : ServerPortMap) (id : string)
    (port : Z) :
  registry_ok m → port ≠ 0%Z → registry_ok (assignProperty m id port).
Proof.
  intros Hok Hp. unfold assignProperty.
  destruct (_ && _); [done | by apply map_Forall_insert_2].
Qed.

Lemma forEach_setPort (instanceIds : list string) (ports : list Z)
    (index : nat) (st : HandlerState) :
  forEach (λ port index, setPort (at_index instanceIds index) port)
          ports index st =
    (Returned tt,
     {| this := {| app := app (this st); server := server (this st);
                   serverPortMap :=
                     recorded instanceIds ports index
                              (serverPortMap (this st)) |};
        res := res st |}).
Proof.
  revert index st. induction ports as [|port ports IH]; intros index st.
  - by destruct st as [[] ?].
  - cbn. run_handler. by rewrite IH.
Qed.

Lemma recorded_other (instanceIds : list string) (ports : list Z)
    (index : nat) (m : ServerPortMap) (id : string) :
  (∀ j, index ≤ j < index + length ports → at_index instanceIds j ≠ id) →
  recorded instanceIds ports index m !! id = m !! id.
Proof.
  revert index m. induction ports as [|port ports IH]; intros index m Hne.
  - done.
  - cbn. rewrite IH.
    + apply lookup_assignProperty_ne, Hne. cbn. lia.
    + intros j Hj. apply Hne. cbn. lia.
Qed.

Lemma at_index_NoDup (instanceIds : list string) (i j : nat) :
  NoDup instanceIds → i < length instanceIds → j < length instanceIds →
  i ≠ j → at_index instanceIds i ≠ at_index instanceIds j.
Proof.
  intros Hnd Hi Hj Hij. unfold at_index.
  destruct (lookup_lt_is_Some_2 _ _ Hi) as [x Hx].
  destruct (lookup_lt_is_Some_2 _ _ Hj) as [y Hy].
  rewrite Hx, Hy. cbn. intros ->.
  by apply Hij, (NoDup_lookup instanceIds i j y).
Qed.

Lemma recorded_lookup (instanceIds : list string) (ports : list Z)
    (index : nat) (m : ServerPortMap) (j : nat) (port : Z) :
  NoDup instanceIds →
  index + length ports ≤ length instanceIds →
  ports !! j = Some port →
  at_index instanceIds (index + j) ≠ "__proto__" →
  recorded instanceIds ports index m !! at_index instanceIds (index + j)
    = Some port.
Proof.
  intros Hnd. revert index m j.
  induction ports as [|p ports IH]; intros index m j Hlen Hj Hproto; [done|].
  cbn in Hlen. destruct j as [|j]; cbn in Hj.
  - injection Hj as ->. cbn. rewrite Nat.add_0_r in *. rewrite recorded_other.
    + by apply lookup_assignProperty_eq.
    + intros k Hk. apply at_index_NoDup; [done | lia | lia | lia].
  - cbn. replace (index + S j) with (S index + j) in * by lia.
    apply IH; [lia | done | done].
Qed.

Lemma recorded_registry_ok (instanceIds : list string) (ports : list Z)
    (index : nat) (m : ServerPortMap) :
  registry_ok m → Forall (λ p, p ≠ 0%Z) ports →
  registry_ok (recorded instanceIds ports index m).
Proof.
  intros Hm Hports. revert index m Hm.
  induction Hports as [|p ports Hp _ IH]; intros index m Hm; [done|].
  cbn. apply IH. by apply assignProperty_registry_ok.
Qed.

Lemma setPort_registry_ok (srv : PortManagerServer) instanceId (port : Z) :
  registry_ok (serverPortMap srv) → port ≠ 0%Z →
  registry_ok (registry_after (serve (setPort instanceId port) srv)).
Proof. intros Hok Hp. run_handler. by apply assignProperty_registry_ok. Qed.

Section AssignPortsToServers.

Context (MIN_PORT_NUMBER MAX_PORT_NUMBER : Z)
        (detectPort : nat → option Z → Settled).

Local Abbreviation callback :=
  (assignCallback MIN_PORT_NUMBER MAX_PORT_NUMBER detectPort).
Local Abbreviation assign :=
  (assignPortsToServers MIN_PORT_NUMBER MAX_PORT_NUMBER detectPort).
Local Abbreviation outside :=
  (outOfRange MIN_PORT_NUMBER MAX_PORT_NUMBER).

Lemma outOfRange_absent_or_within (port : option Z) :
  port = None
  ∨ (∃ p, port = Some p ∧ (MIN_PORT_NUMBER ≤ p ≤ MAX_PORT_NUMBER)%Z) →
  outside port = false.
Proof.
  intros [->|(p & -> & Hp)]; [done|]. unfold outOfRange. cbn.
  apply andb_false_intro2, orb_false_intro.
  - apply Z.ltb_ge. lia.
  - rewrite Z.gtb_ltb. apply Z.ltb_ge. lia.
Qed.

Lemma outOfRange_nonzero_outside (p : Z) :
  p ≠ 0%Z → (p < MIN_PORT_NUMBER ∨ MAX_PORT_NUMBER < p)%Z →
  outside (Some p) = true.
Proof.
  intros Hp Hout. unfold outOfRange, truthy_opt, truthy. cbn.
  apply andb_true_intro. split.
  - by apply negb_true_iff, Z.eqb_neq.
  - apply orb_true_iff. destruct Hout; [left | right].
    + by apply Z.ltb_lt.
    + rewrite Z.gtb_ltb. by apply Z.ltb_lt.
Qed.

(** One run of the callback, by its three branches. *)
Lemma assignCallback_run (port : option Z) (instanceId : string)
    (portPromises : list Settled) (st : HandlerState) :
  callback port instanceId portPromises st =
    let m := serverPortMap (this st) in
    if truthy_read (readPort m instanceId) then
      (send_outcome st portPromises,
       with_response st 409
         (text409_read instanceId (readPort m instanceId)))
    else if outside port then
      (send_outcome st portPromises, with_response st 400 text400)
    else
      (Returned (portPromises ++ [detectPort (length portPromises) port]),
       st).
Proof.
  unfold assignCallback, send_outcome, with_response. run_handler.
  destruct (truthy_read (readPort (serverPortMap (this st)) instanceId)).
  - by destruct (sent (res st)).
  - destruct (outside port); [by destruct (sent (res st)) | done].
Qed.

Lemma forEachWith_cons {A L} (f : A → L → Handler L) x l local st :
  forEachWith f (x :: l) local st =
    match f x local st with
    | (Returned local', st') => forEachWith f l local' st'
    | (Thrown e, st') => (Thrown e, st')
    end.
Proof. reflexivity. Qed.

(** The first loop on a batch in which no element is skipped: one
    detection is started per instance id, nothing else changes. *)
Lemma forEachWith_assignCallback_fresh (instanceIds : list string)
    (port : option Z) (portPromises : list Settled) (st : HandlerState) :
  (∀ id, id ∈ instanceIds →
         truthy_read (readPort (serverPortMap (this st)) id) = false) →
  outside port = false →
  forEachWith (callback port) instanceIds portPromises st =
    (Returned (portPromises
               ++ ((λ n, detectPort n port)
                     <$> seq (length portPromises) (length instanceIds))),
     st).
Proof.
  intros Hfresh Hport. revert portPromises.
  induction instanceIds as [|id ids IH]; intros portPromises.
  - cbn. by rewrite app_nil_r.
  - rewrite forEachWith_cons, assignCallback_run. cbn zeta.
    rewrite Hfresh by apply list_elem_of_here. rewrite Hport.
    rewrite IH by (intros; apply Hfresh; by apply list_elem_of_further).
    rewrite length_app, Nat.add_1_r. cbn. by rewrite <- app_assoc.
Qed.

Lemma Handler_bind_run {A B} (m : Handler A) (f : A → Handler B) st :
  (m ≫= f) st =
    match m st with
    | (Returned a, st') => f a st'
    | (Thrown e, st') => (Thrown e, st')
    end.
Proof. reflexivity. Qed.

Lemma getServerPortByInstanceId_assigned (srv : PortManagerServer)
    (instanceId : string) (port : Z) :
  serverPortMap srv !! instanceId = Some port → port ≠ 0%Z →
  response_of (serve (getServerPortByInstanceId instanceId) srv)
    = Some (200%Z, SendPort port).
Proof.
  intros Hid Hp. unfold getServerPortByInstanceId. run_handler.
  rewrite (readPort_own _ _ _ Hid). unfold truthy.
  by rewrite (proj2 (Z.eqb_neq port 0) Hp).
Qed.

Lemma truthy_read_fresh (m : ServerPortMap) (id : string) :
  m !! id = None → id ∉ Object_prototype_names →
  truthy_read (readPort m id) = false.
Proof. intros Hid Hproto. by rewrite readPort_none. Qed.

Lemma proto_in_names : "__proto__" ∈ Object_prototype_names.
Proof. by_decide. Qed.

(** C3 (amended): for a batch of distinct instance ids none of which has an
    assignment or is the name of a property inherited from
    [Object.prototype], with the desired port absent or within the valid
    range, and with every detection resolving to a (nonzero) port, POST
    /servers returns normally and answers 200 with one port per instance id
    in input order, each being the port detected for that position; a GET
    for any of these instance ids afterwards answers 200 with the port listed
    for it. *)
Theorem assignPortsToServers_fresh_batch
    (srv : PortManagerServer) (instanceIds : list string) (port : option Z) :
  NoDup instanceIds →
  (∀ id, id ∈ instanceIds → serverPortMap srv !! id = None) →
  (∀ id, id ∈ instanceIds → id ∉ Object_prototype_names) →
  port = None
  ∨ (∃ p, port = Some p ∧ (MIN_PORT_NUMBER ≤ p ≤ MAX_PORT_NUMBER)%Z) →
  (∀ n, n < length instanceIds →
        ∃ p, detectPort n port = Resolved p ∧ p ≠ 0%Z) →
  let r := serve (assign instanceIds port) srv in
  ∃ ports,
    fst r = Returned tt ∧
    response_of r = Some (200%Z, SendPorts ports) ∧
    length ports = length instanceIds ∧
    ∀ i id, instanceIds !! i = Some id →
      ∃ p, ports !! i = Some p ∧
           detectPort i port = Resolved p ∧
           response_of (serve (getServerPortByInstanceId id) (this (snd r)))
             = Some (200%Z, SendPort p).
Proof.
  intros Hnd Hfresh Hproto Hport Hdetect r.
  set (promises := (λ n, detectPort n port) <$> seq 0 (length instanceIds)).
  assert (Hres : Forall (λ s, ∃ p, s = Resolved p) promises).
  { apply Forall_fmap, Forall_forall. intros n Hn%elem_of_seq. cbn.
    destruct (Hdetect n) as (p & -> & _); [lia | eauto]. }
  assert (Hr : r = (Returned tt,
                    {| this := {| app := app srv; server := server srv;
                                  serverPortMap :=
                                    recorded instanceIds
                                      (resolved_port <$> promises) 0
                                      (serverPortMap srv) |};
                       res := {| statusCode := 200;
                                 sent := Some (200%Z,
                                   SendPorts (resolved_port <$> promises))
                              |} |})).
  { subst r. unfold serve, assignPortsToServers.
    rewrite Handler_bind_run, forEachWith_assignCallback_fresh.
    - cbn [List.app length]. fold promises.
      rewrite Handler_bind_run, (Promise_all_resolved _ _ Hres).
      rewrite Handler_bind_run, forEach_setPort. reflexivity.
    - intros id Hid. cbn. apply truthy_read_fresh; auto.
    - by apply outOfRange_absent_or_within. }
  exists (resolved_port <$> promises). rewrite Hr. cbn.
  split; [done|]. split; [done|]. split.
  { subst promises. by rewrite !length_fmap, length_seq. }
  intros i id Hi.
  assert (Hlt : i < length instanceIds) by (by eapply lookup_lt_Some).
  destruct (Hdetect i Hlt) as (p & Hp & Hp0).
  assert (Hpi : (resolved_port <$> promises) !! i = Some p).
  { subst promises. rewrite !list_lookup_fmap, lookup_seq_lt by done.
    cbn. by rewrite Hp. }
  exists p. split; [done|]. split; [done|].
  apply getServerPortByInstanceId_assigned; [|done]. cbn.
  assert (Hidx : at_index instanceIds (0 + i) = id)
    by (unfold at_index; cbn; by rewrite Hi).
  rewrite <- Hidx.
  apply recorded_lookup; [done | | done |].
  - subst promises. rewrite !length_fmap, length_seq. lia.
  - rewrite Hidx. intros ->.
    apply (Hproto "__proto__"); [by eapply list_elem_of_lookup_2|].
    apply proto_in_names.
Qed.

(** The first loop on a batch in which every element is skipped: no
    detection is started, the server object is untouched, and the response
    is the one sent for the first element. *)
Lemma forEachWith_assignCallback_skipped (instanceIds : list string)
    (port : option Z) (portPromises : list Settled) (st : HandlerState) :
  (∀ id, id ∈ instanceIds →
         truthy_read (readPort (serverPortMap (this st)) id) || outside port = true) →
  let m := serverPortMap (this st) in
  let r := forEachWith (callback port) instanceIds portPromises st in
  this (snd r) = this st ∧
  (fst r = Returned portPromises ∨ ∃ e, fst r = Thrown e) ∧
  sent (res (snd r)) =
    match sent (res st), instanceIds with
    | Some first, _ => Some first
    | None, [] => None
    | None, id :: _ =>
        Some (if truthy_read (readPort m id)
              then (409%Z, text409_read id (readPort m id))
              else (400%Z, text400))
    end.
Proof.
  revert st. induction instanceIds as [|id ids IH]; intros st Hskip m r.
  - subst r. cbn. split; [done|]. split; [by left|].
    by destruct (sent (res st)).
  - subst r. rewrite forEachWith_cons, assignCallback_run. cbn zeta.
    fold m. pose proof (Hskip id (list_elem_of_here _ _)) as Hid. fold m in Hid.
    set (status_body := if truthy_read (readPort m id)
                        then (409%Z, text409_read id (readPort m id))
                        else (400%Z, text400)).
    assert (Hstep :
      (if truthy_read (readPort m id)
       then (send_outcome st portPromises,
             with_response st 409 (text409_read id (readPort m id)))
       else if outside port
            then (send_outcome st portPromises, with_response st 400 text400)
            else (Returned (portPromises
                            ++ [detectPort (length portPromises) port]), st))
      = (send_outcome st portPromises,
         with_response st (fst status_body) (snd status_body))).
    { subst status_body. destruct (truthy_read (readPort m id)); [done|].
      cbn in Hid. by rewrite Hid. }
    rewrite Hstep. clear Hstep.
    unfold send_outcome. destruct (sent (res st)) as [first|] eqn:Hsent.
    + cbn. rewrite Hsent. split; [done|]. split; [eauto | done].
    + specialize (IH (with_response st (fst status_body) (snd status_body))).
      cbn zeta in IH. destruct IH as (Hthis & Hout & Hresp).
      { intros id' Hid'. cbn. apply Hskip. by apply list_elem_of_further. }
      split; [done|]. split; [done|].
      rewrite Hresp. cbn. rewrite Hsent. by destruct status_body.
Qed.

(** C4 (amended): a POST /servers request whose explicit desired port is
    nonzero and outside [MIN_PORT_NUMBER, MAX_PORT_NUMBER] leaves the server
    object, and with it the registry, as it was; when the batch is a single
    instance id that has no assignment and is not the name of a property
    inherited from [Object.prototype], the answer is 400. *)
Theorem assignPortsToServers_out_of_range
    (srv : PortManagerServer) (instanceIds : list string) (p : Z) :
  p ≠ 0%Z →
  (p < MIN_PORT_NUMBER ∨ MAX_PORT_NUMBER < p)%Z →
  let r := serve (assign instanceIds (Some p)) srv in
  this (snd r) = srv ∧
  ∀ id, instanceIds = [id] →
        serverPortMap srv !! id = None →
        id ∉ Object_prototype_names →
        response_of r = Some (400%Z, text400).
Proof.
  intros Hp Hout r.
  pose proof (outOfRange_nonzero_outside p Hp Hout) as Hbad.
  pose proof (forEachWith_assignCallback_skipped instanceIds (Some p) []
                {| this := srv; res := freshResponse |}) as Hloop.
  cbn zeta in Hloop. destruct Hloop as (Hthis & Hout' & Hresp).
  { intros id' _. rewrite Hbad. apply orb_true_r. }
  cbn [this res sent freshResponse] in Hthis, Hresp.
  subst r. unfold serve, assignPortsToServers, response_of.
  rewrite Handler_bind_run.
  destruct (forEachWith (callback (Some p)) instanceIds []
              {| this := srv; res := freshResponse |}) as [out st'].
  cbn [fst snd] in Hthis, Hout', Hresp.
  assert (Hfinal : ∀ id, instanceIds = [id] →
            serverPortMap srv !! id = None →
            id ∉ Object_prototype_names →
            sent (res st') = Some (400%Z, text400)).
  { intros id -> Hid Hproto. rewrite Hresp.
    by rewrite truthy_read_fresh. }
  destruct Hout' as [->|[e ->]]; run_handler.
  - destruct (sent (res st')) eqn:Hsent; cbn; rewrite ?Hsent.
    + by split.
    + split; [by destruct st' as [[] ?]; cbn in *; subst|].
      intros id Hids Hid Hproto. by specialize (Hfinal id Hids Hid Hproto).
  - done.
Qed.

Lemma forEachWith_assignCallback_this (instanceIds : list string)
    (port : option Z) (portPromises : list Settled) (st : HandlerState)
    (Q : Settled → Prop) :
  Forall Q portPromises → (∀ n, Q (detectPort n port)) →
  let r := forEachWith (callback port) instanceIds portPromises st in
  this (snd r) = this st ∧
  ∀ promises, fst r = Returned promises → Forall Q promises.
Proof.
  intros Hacc HQ. revert portPromises st Hacc.
  induction instanceIds as [|id ids IH]; intros portPromises st Hacc r.
  - subst r. cbn. split; [done|]. by intros ? [= <-].
  - subst r. rewrite forEachWith_cons, assignCallback_run. cbn zeta.
    assert (Hskip : ∀ status body,
      let r := match (send_outcome st portPromises,
                      with_response st status body) with
               | (Returned local', st') =>
                   forEachWith (callback port) ids local' st'
               | (Thrown e, st') => (Thrown e, st')
               end in
      this (snd r) = this st ∧
      ∀ promises, fst r = Returned promises → Forall Q promises).
    { intros status body. unfold send_outcome.
      destruct (sent (res st)); cbn; [done|].
      by apply (IH portPromises (with_response st status body)). }
    destruct (truthy_read (readPort (serverPortMap (this st)) id)); [apply Hskip|].
    destruct (outside port); [apply Hskip|].
    apply IH. apply Forall_app. split; [done|]. by apply Forall_singleton.
Qed.

Lemma Promise_all_run (promises : list Settled) (st : HandlerState) :
  snd (Promise_all promises st) = st ∧
  ∀ ports, fst (Promise_all promises st) = Returned ports →
           Forall2 (λ s p, s = Resolved p) promises ports.
Proof.
  induction promises as [|[p|e] promises [IHst IHports]]; cbn.
  - split; [done|]. intros ? [= <-]. constructor.
  - rewrite Handler_bind_run.
    destruct (Promise_all promises st) as [[ports'|e] st']; cbn in *.
    + split; [done|]. intros ? [= <-]. constructor; [done|]. by apply IHports.
    + done.
  - done.
Qed.

(** The registry invariant is kept by POST /servers, whatever the batch and
    however the request ends, as long as a detection never resolves to 0. *)
Lemma assignPortsToServers_registry_ok
    (srv : PortManagerServer) (instanceIds : list string) (port : option Z) :
  registry_ok (serverPortMap srv) →
  (∀ n p, detectPort n port = Resolved p → p ≠ 0%Z) →
  registry_ok (registry_after (serve (assign instanceIds port) srv)).
Proof.
  intros Hok Hdetect. unfold serve, assignPortsToServers, registry_after.
  pose proof (forEachWith_assignCallback_this instanceIds port []
                {| this := srv; res := freshResponse |}
                (λ s, ∀ p, s = Resolved p → p ≠ 0%Z)
                (Forall_nil_2 _) (λ n p, Hdetect n p)) as Hloop.
  cbn zeta in Hloop. destruct Hloop as [Hthis Hpromises].
  rewrite Handler_bind_run.
  destruct (forEachWith (callback port) instanceIds []
              {| this := srv; res := freshResponse |}) as [[promises|e] st1];
    cbn in Hthis, Hpromises; [|cbn; by rewrite Hthis].
  specialize (Hpromises promises eq_refl).
  destruct (Promise_all_run promises st1) as [Hst Hports].
  rewrite Handler_bind_run.
  destruct (Promise_all promises st1) as [[ports|e] st2];
    cbn in Hst, Hports; subst st2; [|cbn; by rewrite Hthis].
  specialize (Hports ports eq_refl).
  rewrite Handler_bind_run, forEach_setPort.
  assert (Hnz : Forall (λ p, p ≠ 0%Z) ports).
  { clear -Hpromises Hports.
    induction Hports as [|s p promises ports -> _ IH]; [done|].
    apply Forall_cons in Hpromises as [Hs Hrest].
    constructor; [by apply Hs | by apply IH]. }
  unfold res_send. cbn [this res sent statusCode].
  rewrite Hthis.
  destruct (sent (res st1)); cbn; by apply recorded_registry_ok.
Qed.

End AssignPortsToServers.

(** ** Start-up *)

Lemma append_length (s t : string) :
  String.length (s +:+ t) = String.length s + String.length t.
Proof. induction s as [|a s IH]; simpl; [done | by rewrite IH]. Qed.

Lemma append_inj_r (s1 s2 t : string) : s1 +:+ t = s2 +:+ t → s1 = s2.
Proof.
  revert s2. induction s1 as [|a s1 IH]; intros [|b s2] H; simpl in H.
  - done.
  - apply (f_equal String.length) in H.
    rewrite !append_length in H. simpl in H. lia.
  - apply (f_equal String.length) in H.
    rewrite !append_length in H. simpl in H. lia.
  - injection H as -> H. f_equal. by apply IH.
Qed.

Lemma init_listening (PORT : Z) (src : string) :
  serve (init PORT src None) constructor =
    (Returned tt,
     {| this := {| app := true; server := true; serverPortMap := ∅ |};
        res := freshResponse |}).
Proof. reflexivity. Qed.

Lemma init_duplicate (PORT : Z) (src : string) (bind : option BaseError)
    (srv : PortManagerServer) :
  app srv = true →
  fst (serve (init PORT src bind) srv) =
    Thrown (ErrorWithMessage "utils.PortManagerServer.duplicateInstance" [] None).
Proof. intros Happ. unfold init, getApp. run_handler. by rewrite Happ. Qed.

Lemma init_rethrows (PORT : Z) (src : string) (err : BaseError) :
  code err ≠ Some "EADDRINUSE" →
  fst (serve (init PORT src (Some err)) constructor) = Thrown err.
Proof.
  intros Hcode. unfold init, getApp, try_catch, listen, setApp. run_handler.
  by rewrite bool_decide_eq_false_2.
Qed.

(** C8: when [listen] fails with EADDRINUSE, [init] throws a new error whose
    interpolation data names the coordination port and whose cause is the
    original error; its message identifier is the text of the function [i18n]
    followed by [.portInUse], which is the port-in-use identifier of this
    module only if that text were the module's [i18nKey]. *)
Theorem init_port_in_use_identifier (PORT : Z) (src text : string) :
  let err := SystemError (Some "EADDRINUSE") text in
  fst (serve (init PORT src (Some err)) constructor) =
    Thrown (ErrorWithMessage (src +:+ ".portInUse") [("port", VNum PORT)]
                             (Some err))
  ∧ (src +:+ ".portInUse" = i18nKey +:+ ".portInUse" ↔ src = i18nKey).
Proof.
  split; [reflexivity|].
  split; [apply append_inj_r | by intros ->].
Qed.

(** ** generateConfig *)

(** C10: [generateConfig] returns [null] exactly when [options] is absent or
    the type is none of the three known auth methods; for a known type with
    options present the result has exactly one account, whose [authType] is
    the requested type. *)
Theorem generateConfig_null_or_single_account
    (API_KEY_AUTH_METHOD OAUTH_AUTH_METHOD PERSONAL_ACCESS_KEY_AUTH_METHOD
       : AuthMethod)
    (type : string) (options : option Options) :
  let known := type = value API_KEY_AUTH_METHOD
               ∨ type = value PERSONAL_ACCESS_KEY_AUTH_METHOD
               ∨ type = value OAUTH_AUTH_METHOD in
  let result := generateConfig API_KEY_AUTH_METHOD OAUTH_AUTH_METHOD
                               PERSONAL_ACCESS_KEY_AUTH_METHOD type options in
  (result = None ↔ options = None ∨ ¬ known) ∧
  (is_Some options → known →
   ∃ account, result = Some {| accounts := [account] |}
              ∧ authType account = type).
Proof.
  intros known result. subst known result. unfold generateConfig.
  destruct options as [o|].
  2:{ split; [split; [by left | done] | by intros [? ?]]. }
  assert (Hsome : ∀ (c : CLIConfig_NEW) (P : Prop),
             P → (Some c = None ↔ Some o = None ∨ ¬ P)).
  { intros c P HP. split; [done | by intros [?|?]]. }
  destruct (String.eqb_spec type (value API_KEY_AUTH_METHOD)) as [->|Ha].
  { split; [apply Hsome; auto | eauto]. }
  destruct (String.eqb_spec type (value PERSONAL_ACCESS_KEY_AUTH_METHOD))
    as [->|Hp].
  { split; [apply Hsome; auto | eauto]. }
  destruct (String.eqb_spec type (value OAUTH_AUTH_METHOD)) as [->|Ho].
  { split; [apply Hsome; auto | eauto]. }
  split.
  - split; [intros _; right; by intros [?|[?|?]] | done].
  - by intros _ [?|[?|?]].
Qed.

(** * Concrete runs *)

(** C1: registry [{b: 4000}], POST /servers with [instanceIds = ["b", "a"]]
    and no desired port.  "b" is skipped with 409; the only detection is the
    one started for "a" (it resolves to 3000), yet 3000 is recorded against
    "b", "a" stays without an assignment, and the answer is the 409 instead of
    the list of ports: the final send fails on the response already sent. *)
Theorem assignPortsToServers_skipped_batch_misrecords :
  let r := serve (ports_1024_65535 detect_preferred ["b"; "a"] None)
                 (running {[ "b" := 4000%Z ]}) in
  registry_after r !! "a" = None ∧
  registry_after r !! "b" = Some 3000%Z ∧
  response_of r = Some (409%Z, text409 "b" 4000) ∧
  fst r = Thrown ERR_HTTP_HEADERS_SENT.
Proof. vm_compute. done. Qed.

(** C2: registry [{b: 4000}], POST /servers with [instanceIds = ["b", "c"]]
    and desired port 6000.  The answer is 409 naming port 4000 of "b", but
    after the batch "b" is recorded with 6000, the port detected for "c". *)
Theorem assignPortsToServers_conflict_overwritten :
  let srv := running {[ "b" := 4000%Z ]} in
  let r := serve (ports_1024_65535 detect_preferred ["b"; "c"] (Some 6000%Z))
                 srv in
  serverPortMap srv !! "b" = Some 4000%Z ∧
  response_of r = Some (409%Z, text409 "b" 4000) ∧
  registry_after r !! "b" = Some 6000%Z ∧
  registry_after r !! "c" = None.
Proof. vm_compute. done. Qed.

(** C4, as stated, fails for the desired port 0: it lies outside
    [1024, 65535], the instance id "a" has no assignment, yet the answer is
    200 with a detected port and the registry gains an entry. *)
Lemma assignPortsToServers_port_zero_not_rejected :
  let srv := running ∅ in
  let r := serve (ports_1024_65535 detect_preferred ["a"] (Some 0%Z)) srv in
  (0 < 1024 ∨ 65535 < 0)%Z ∧
  serverPortMap srv !! "a" = None ∧
  response_of r = Some (200%Z, SendPorts [3000%Z]) ∧
  registry_after r !! "a" = Some 3000%Z ∧
  registry_after r ≠ serverPortMap srv.
Proof.
  vm_compute. split; [by left|]. do 3 (split; [done|]). discriminate.
Qed.

(** With a desired port outside the range, an instance id that follows a
    conflicting one gets no 400: the only answer of the request is the 409
    sent for the first element. *)
Lemma assignPortsToServers_out_of_range_after_conflict :
  let srv := running {[ "b" := 4000%Z ]} in
  let r := serve (ports_1024_65535 detect_preferred ["b"; "a"] (Some 70000%Z))
                 srv in
  serverPortMap srv !! "a" = None ∧
  response_of r = Some (409%Z, text409 "b" 4000) ∧
  fst r = Thrown ERR_HTTP_HEADERS_SENT ∧
  registry_after r = serverPortMap srv.
Proof. vm_compute. done. Qed.

(** With a desired port outside the range, an instance id that has no
    assignment but is the name of a member of [Object.prototype] is answered
    409, not 400: the conflict test reads the inherited member first. *)
Lemma assignPortsToServers_out_of_range_inherited_name :
  let srv := running ∅ in
  let r := serve (ports_1024_65535 detect_preferred ["constructor"]
                                   (Some 70000%Z)) srv in
  serverPortMap srv !! "constructor" = None ∧
  response_of r
    = Some (409%Z, text409_read "constructor" InheritedMember) ∧
  registry_after r = serverPortMap srv.
Proof. vm_compute. done. Qed.

(** C3, as stated, fails for the instance id "constructor": it has no
    assignment, yet POST /servers answers 409 instead of 200 with a port,
    starts no detection and records nothing, so a following GET does not
    return a port listed by the POST. *)
Lemma assignPortsToServers_inherited_name_conflict :
  let srv := running ∅ in
  let r := serve (ports_1024_65535 detect_preferred ["constructor"] None)
                 srv in
  NoDup ["constructor"] ∧
  serverPortMap srv !! "constructor" = None ∧
  response_of r
    = Some (409%Z, text409_read "constructor" InheritedMember) ∧
  registry_after r !! "constructor" = None.
Proof. split; [by_decide|]. vm_compute. done. Qed.

(** C5, as stated, fails for the instance id "constructor": on the empty
    registry it has no assignment, yet GET /servers/constructor answers 200,
    with the inherited member as the port. *)
Lemma getServerPortByInstanceId_inherited_name :
  let r := serve (getServerPortByInstanceId "constructor") (running ∅) in
  serverPortMap (running ∅) !! "constructor" = None ∧
  response_of r = Some (200%Z, SendInheritedPort "constructor").
Proof. vm_compute. done. Qed.

(** C6, as stated, fails for the instance id "constructor": on the empty
    registry it has no assignment, yet DELETE /servers/constructor answers
    200 instead of 404. *)
Lemma deleteServerInstance_inherited_name :
  let r := serve (deleteServerInstance "constructor") (running ∅) in
  serverPortMap (running ∅) !! "constructor" = None ∧
  response_of r = Some (200%Z, SendStatusText 200) ∧
  registry_after r = serverPortMap (running ∅).
Proof. vm_compute. done. Qed.

(** ** Instances of the conditional theorems *)

Lemma registry_ok_singleton (id : string) (port : Z) :
  port ≠ 0%Z → registry_ok {[ id := port ]}.
Proof. intros Hp. by apply map_Forall_singleton. Qed.

Lemma getServerPortByInstanceId_found_or_404_witness :
  registry_ok {[ "a" := 3000%Z ]} ∧
  response_of (serve (getServerPortByInstanceId "a")
                     (running {[ "a" := 3000%Z ]}))
    = Some (200%Z, SendPort 3000) ∧
  response_of (serve (getServerPortByInstanceId "z")
                     (running {[ "a" := 3000%Z ]}))
    = Some (404%Z, text404 "z").
Proof.
  assert (Hok : registry_ok {[ "a" := 3000%Z ]})
    by (apply registry_ok_singleton; lia).
  assert (Hz : "z" ∉ Object_prototype_names) by by_decide.
  split; [exact Hok|]. split.
  - exact (proj2 (proj2 (getServerPortByInstanceId_found_or_404
                           (running {[ "a" := 3000%Z ]}) "a" Hok))).
  - exact (proj2 (proj2 (getServerPortByInstanceId_found_or_404
                           (running {[ "a" := 3000%Z ]}) "z" Hok)) Hz).
Defined.

Lemma deleteServerInstance_releases_witness :
  registry_ok {[ "a" := 3000%Z ]} ∧
  registry_after (serve (deleteServerInstance "a")
                        (running {[ "a" := 3000%Z ]})) !! "a" = None ∧
  response_of (serve (deleteServerInstance "a") (running {[ "a" := 3000%Z ]}))
    = Some (200%Z, SendStatusText 200) ∧
  response_of
    (serve (getServerPortByInstanceId "a")
       (this (snd (serve (deleteServerInstance "a")
                         (running {[ "a" := 3000%Z ]})))))
    = Some (404%Z, text404 "a") ∧
  response_of (serve (deleteServerInstance "z") (running {[ "a" := 3000%Z ]}))
    = Some (404%Z, text404 "z").
Proof.
  assert (Hok : registry_ok {[ "a" := 3000%Z ]})
    by (apply registry_ok_singleton; lia).
  assert (Hna : "a" ∉ Object_prototype_names) by by_decide.
  assert (Hnz : "z" ∉ Object_prototype_names) by by_decide.
  split; [exact Hok|].
  pose proof (deleteServerInstance_releases
                (running {[ "a" := 3000%Z ]}) "a" Hok) as Ha.
  pose proof (deleteServerInstance_releases
                (running {[ "a" := 3000%Z ]}) "z" Hok) as Hz.
  split; [exact (proj1 (proj2 (proj2 Ha)))|].
  split; [exact (proj1 (proj2 (proj2 (proj2 Ha))))|].
  split; [exact (proj2 (proj2 (proj2 (proj2 Ha))) Hna)|].
  exact (proj2 (proj2 Hz) Hnz).
Defined.

Lemma assignPortsToServers_fresh_batch_witness :
  ∃ ports,
    response_of (serve (ports_1024_65535 detect_preferred ["a"; "b"] None)
                       (running ∅))
      = Some (200%Z, SendPorts ports) ∧
    length ports = 2.
Proof.
  destruct (assignPortsToServers_fresh_batch 1024 65535 detect_preferred
              (running ∅) ["a"; "b"] None) as (ports & _ & Hresp & Hlen & _).
  - apply NoDup_cons. split; [by intros [= ]%list_elem_of_singleton|].
    apply NoDup_singleton.
  - intros id _. apply lookup_empty.
  - intros id Hid Hproto.
    assert (Hnone : ∀ x, x ∈ ["a"; "b"] → x ∉ Object_prototype_names).
    { apply Forall_forall. by_decide. }
    by apply (Hnone id Hid).
  - by left.
  - intros n Hn. eexists. split; [reflexivity | cbn; lia].
  - exists ports. split; [exact Hresp | exact Hlen].
Defined.

Lemma assignPortsToServers_out_of_range_witness :
  (70000 ≠ 0)%Z ∧ (70000 < 1024 ∨ 65535 < 70000)%Z ∧
  this (snd (serve (ports_1024_65535 detect_preferred ["a"] (Some 70000%Z))
                   (running {[ "b" := 4000%Z ]})))
    = running {[ "b" := 4000%Z ]} ∧
  response_of (serve (ports_1024_65535 detect_preferred ["a"] (Some 70000%Z))
                     (running {[ "b" := 4000%Z ]}))
    = Some (400%Z, text400).
Proof.
  assert (H0 : (70000 ≠ 0)%Z) by lia.
  assert (Hout : (70000 < 1024 ∨ 65535 < 70000)%Z) by lia.
  assert (Ha : "a" ∉ Object_prototype_names) by by_decide.
  split; [exact H0|]. split; [exact Hout|].
  pose proof (assignPortsToServers_out_of_range 1024 65535 detect_preferred
                (running {[ "b" := 4000%Z ]}) ["a"] 70000 H0 Hout)
    as [Hthis Hresp].
  split; [exact Hthis|].
  exact (Hresp "a" eq_refl eq_refl Ha).
Defined.

Lemma generateConfig_null_or_single_account_witness :
  ∃ account,
    generateConfig {| value := "apikey" |} {| value := "oauth2" |}
                   {| value := "personalaccesskey" |} "oauth2"
                   (Some {| opt_accountId := Some 123%Z;
                            opt_env := Some "prod";
                            opt_apiKey := None;
                            opt_personalAccessKey := None;
                            opt_clientId := Some "id";
                            opt_clientSecret := Some "secret";
                            opt_refreshToken := Some "token";
                            opt_scopes := Some ["content"] |})
      = Some {| accounts := [account] |}
    ∧ authType account = "oauth2".
Proof.
  apply (proj2 (generateConfig_null_or_single_account
                  {| value := "apikey" |} {| value := "oauth2" |}
                  {| value := "personalaccesskey" |} "oauth2" _)).
  - by eexists.
  - right. right. reflexivity.
Defined.

(** * Further properties of the port manager server *)

Section AssignPortsToServersFurther.

Context (MIN_PORT_NUMBER MAX_PORT_NUMBER : Z)
        (detectPort : nat → option Z → Settled).

Local Abbreviation callback :=
  (assignCallback MIN_PORT_NUMBER MAX_PORT_NUMBER detectPort).
Local Abbreviation assign :=
  (assignPortsToServers MIN_PORT_NUMBER MAX_PORT_NUMBER detectPort).

Lemma forEachWith_assignCallback_length (instanceIds : list string)
    (port : option Z) (portPromises : list Settled) (st : HandlerState) :
  ∀ promises,
    fst (forEachWith (callback port) instanceIds portPromises st)
      = Returned promises →
    length promises ≤ length portPromises + length instanceIds.
Proof.
  revert portPromises st.
  induction instanceIds as [|id ids IH]; intros portPromises st promises.
  - cbn. intros [= <-]. lia.
  - rewrite forEachWith_cons, assignCallback_run. cbn zeta.
    assert (Hskip : ∀ status body,
      fst (match (send_outcome st portPromises,
                  with_response st status body) with
           | (Returned local', st') =>
               forEachWith (callback port) ids local' st'
           | (Thrown e, st') => (Thrown e, st')
           end) = Returned promises →
      length promises ≤ length portPromises + length (id :: ids)).
    { intros status body. unfold send_outcome.
      destruct (sent (res st)); cbn; [done|].
      intros H%IH. lia. }
    destruct (truthy_read (readPort (serverPortMap (this st)) id));
      [apply Hskip|].
    destruct (outOfRange MIN_PORT_NUMBER MAX_PORT_NUMBER port);
      [apply Hskip|].
    intros H%IH. rewrite length_app in H. cbn in *. lia.
Qed.

(** The promises the first loop returns are those it was given and
    detections numbered below the length of the batch. *)
Lemma forEachWith_assignCallback_started (instanceIds : list string)
    (port : option Z) (portPromises : list Settled) (st : HandlerState)
    (Q : Settled → Prop) :
  Forall Q portPromises →
  (∀ n, n < length portPromises + length instanceIds →
        Q (detectPort n port)) →
  ∀ promises,
    fst (forEachWith (callback port) instanceIds portPromises st)
      = Returned promises →
    Forall Q promises.
Proof.
  revert portPromises st.
  induction instanceIds as [|id ids IH];
    intros portPromises st Hacc HQ promises.
  - cbn. by intros [= <-].
  - rewrite forEachWith_cons, assignCallback_run. cbn zeta.
    assert (Hskip : ∀ status body,
      fst (match (send_outcome st portPromises,
                  with_response st status body) with
           | (Returned local', st') =>
               forEachWith (callback port) ids local' st'
           | (Thrown e, st') => (Thrown e, st')
           end) = Returned promises →
      Forall Q promises).
    { intros status body. unfold send_outcome.
      destruct (sent (res st)); cbn; [done|].
      apply IH; [done|]. intros n Hn. apply HQ. cbn. lia. }
    destruct (truthy_read (readPort (serverPortMap (this st)) id));
      [apply Hskip|].
    destruct (outOfRange MIN_PORT_NUMBER MAX_PORT_NUMBER port);
      [apply Hskip|].
    apply IH.
    + apply Forall_app. split; [done|]. apply Forall_singleton, HQ.
      cbn. lia.
    + intros n Hn. apply HQ. rewrite length_app in Hn. cbn in *. lia.
Qed.

(** However a POST /servers request ends, the server object it leaves is the
    one it found with some ports recorded: no more ports than instance ids,
    each the value of a detection of this request numbered below the length
    of the batch. *)
Lemma assignPortsToServers_this (srv : PortManagerServer)
    (instanceIds : list string) (port : option Z) :
  ∃ ports,
    length ports ≤ length instanceIds ∧
    Forall (λ p, ∃ n, n < length instanceIds
                      ∧ detectPort n port = Resolved p) ports ∧
    this (snd (serve (assign instanceIds port) srv))
      = with_registry srv (recorded instanceIds ports 0 (serverPortMap srv)).
Proof.
  assert (Hnone : ∃ ports,
    length ports ≤ length instanceIds ∧
    Forall (λ p, ∃ n, n < length instanceIds
                      ∧ detectPort n port = Resolved p) ports ∧
    srv = with_registry srv (recorded instanceIds ports 0 (serverPortMap srv))).
  { exists []. split; [cbn; lia|]. split; [done|]. by destruct srv. }
  unfold serve, assignPortsToServers.
  pose proof (forEachWith_assignCallback_this MIN_PORT_NUMBER MAX_PORT_NUMBER
                detectPort instanceIds port []
                {| this := srv; res := freshResponse |}
                (λ s, True)
                (Forall_nil_2 _) (λ n, I)) as Hloop.
  pose proof (forEachWith_assignCallback_started instanceIds port []
                {| this := srv; res := freshResponse |}
                (λ s, ∃ n, n < length instanceIds ∧ s = detectPort n port)
                (Forall_nil_2 _)
                (λ n Hn, ex_intro _ n (conj Hn eq_refl))) as Hpromises.
  pose proof (forEachWith_assignCallback_length instanceIds port []
                {| this := srv; res := freshResponse |}) as Hlen.
  cbn zeta in Hloop. destruct Hloop as [Hthis _].
  rewrite Handler_bind_run.
  destruct (forEachWith (callback port) instanceIds []
              {| this := srv; res := freshResponse |}) as [[promises|e] st1];
    cbn [fst snd this] in Hthis, Hpromises, Hlen;
    [|cbn [snd]; by rewrite Hthis].
  specialize (Hpromises promises eq_refl).
  specialize (Hlen promises eq_refl). cbn in Hlen.
  destruct (Promise_all_run promises st1) as [Hst Hports].
  rewrite Handler_bind_run.
  destruct (Promise_all promises st1) as [[ports|e] st2];
    cbn [fst snd] in Hst, Hports; subst st2;
    [|cbn [snd]; by rewrite Hthis].
  specialize (Hports ports eq_refl).
  rewrite Handler_bind_run, forEach_setPort.
  exists ports. split; [|split].
  - rewrite <- (Forall2_length _ _ _ Hports). lia.
  - clear -Hpromises Hports.
    induction Hports as [|s p promises ports -> _ IH]; [done|].
    apply Forall_cons in Hpromises as [(n & Hn & Hs) Hrest].
    constructor; [by exists n | by apply IH].
  - unfold res_send. cbn [this res sent statusCode].
    rewrite Hthis. by destruct (sent (res st1)).
Qed.

Lemma at_index_elem_of (instanceIds : list string) (j : nat) :
  j < length instanceIds → at_index instanceIds j ∈ instanceIds.
Proof.
  intros Hj. unfold at_index.
  destruct (lookup_lt_is_Some_2 _ _ Hj) as [x Hx]. rewrite Hx. cbn.
  by eapply list_elem_of_lookup_2.
Qed.

(** X1: POST /servers never touches the entry of an instance id that is not
    in the batch, whatever the registry, the desired port, the outcome of the
    detections and the way the request ends. *)
Theorem assignPortsToServers_other_ids_untouched (srv : PortManagerServer)
    (instanceIds : list string) (port : option Z) (id : string) :
  id ∉ instanceIds →
  registry_after (serve (assign instanceIds port) srv) !! id
    = serverPortMap srv !! id.
Proof.
  intros Hid. unfold registry_after.
  destruct (assignPortsToServers_this srv instanceIds port)
    as (ports & Hlen & _ & ->).
  cbn. apply recorded_other. intros j Hj Heq. apply Hid. rewrite <- Heq.
  apply at_index_elem_of. lia.
Qed.

(** X2: on a registry satisfying the invariant, a POST /servers batch in
    which every instance id already has an assignment changes nothing in the
    server object and is answered 409 naming the first instance id of the
    batch and its recorded port. *)
Theorem assignPortsToServers_all_assigned (srv : PortManagerServer)
    (id : string) (instanceIds : list string) (port : option Z) :
  registry_ok (serverPortMap srv) →
  (∀ i, i ∈ id :: instanceIds → is_Some (serverPortMap srv !! i)) →
  let r := serve (assign (id :: instanceIds) port) srv in
  this (snd r) = srv ∧
  ∃ existing, serverPortMap srv !! id = Some existing ∧
              response_of r = Some (409%Z, text409 id existing).
Proof.
  intros Hok Hall r.
  assert (Htruthy : ∀ i, i ∈ id :: instanceIds →
            truthy_read (readPort (serverPortMap srv) i) = true).
  { intros i [p Hp]%Hall. by eapply truthy_read_own. }
  pose proof (forEachWith_assignCallback_skipped MIN_PORT_NUMBER
                MAX_PORT_NUMBER detectPort (id :: instanceIds) port []
                {| this := srv; res := freshResponse |}) as Hloop.
  cbn zeta in Hloop. destruct Hloop as (Hthis & Hout & Hresp).
  { intros i Hi. cbn. by rewrite (Htruthy i Hi). }
  cbn [this res sent freshResponse] in Hthis, Hresp.
  rewrite (Htruthy id) in Hresp by apply list_elem_of_here.
  destruct (Hall id (list_elem_of_here _ _)) as [existing Hex].
  rewrite (readPort_own _ _ _ Hex) in Hresp.
  change (text409_read id (OwnPort existing)) with (text409 id existing)
    in Hresp.
  subst r. unfold serve, assignPortsToServers, response_of.
  rewrite Handler_bind_run.
  destruct (forEachWith (callback port) (id :: instanceIds) []
              {| this := srv; res := freshResponse |}) as [out st'].
  cbn in Hthis, Hout, Hresp.
  destruct Hout as [->|[e ->]]; run_handler.
  - rewrite Hresp. cbn. eauto.
  - eauto.
Qed.

(** A batch without skipped elements whose detections all resolve. *)
Lemma assignPortsToServers_fresh_run (srv : PortManagerServer)
    (instanceIds : list string) (port : option Z) :
  (∀ id, id ∈ instanceIds →
         truthy_read (readPort (serverPortMap srv) id) = false) →
  outOfRange MIN_PORT_NUMBER MAX_PORT_NUMBER port = false →
  (∀ n, n < length instanceIds → ∃ p, detectPort n port = Resolved p) →
  let ports := (λ n, resolved_port (detectPort n port))
                 <$> seq 0 (length instanceIds) in
  serve (assign instanceIds port) srv =
    (Returned tt,
     {| this := with_registry srv
                  (recorded instanceIds ports 0 (serverPortMap srv));
        res := {| statusCode := 200;
                  sent := Some (200%Z, SendPorts ports) |} |}).
Proof.
  intros Hfresh Hport Hdetect ports.
  set (promises := (λ n, detectPort n port) <$> seq 0 (length instanceIds)).
  assert (Hres : Forall (λ s, ∃ p, s = Resolved p) promises).
  { apply Forall_fmap, Forall_forall. intros n Hn%elem_of_seq. cbn.
    destruct (Hdetect n) as (p & ->); [lia | eauto]. }
  assert (Hports : ports = resolved_port <$> promises).
  { subst ports promises. by rewrite <- list_fmap_compose. }
  unfold serve, assignPortsToServers.
  rewrite Handler_bind_run, forEachWith_assignCallback_fresh; [| done | done].
  cbn [List.app length]. fold promises.
  rewrite Handler_bind_run, (Promise_all_resolved _ _ Hres).
  rewrite Handler_bind_run, forEach_setPort, <- Hports. reflexivity.
Qed.

Lemma recorded_lookup_last (instanceIds : list string) (ports : list Z)
    (index : nat) (m : ServerPortMap) (j : nat) (port : Z) :
  ports !! j = Some port →
  at_index instanceIds (index + j) ≠ "__proto__" →
  (∀ j', j < j' < length ports →
         at_index instanceIds (index + j') ≠ at_index instanceIds (index + j)) →
  recorded instanceIds ports index m !! at_index instanceIds (index + j)
    = Some port.
Proof.
  revert index m j.
  induction ports as [|p ports IH]; intros index m j Hj Hproto Hlast; [done|].
  destruct j as [|j]; cbn in Hj.
  - injection Hj as ->. cbn. rewrite Nat.add_0_r in *. rewrite recorded_other.
    + by apply lookup_assignProperty_eq.
    + intros k Hk.
      replace k with (index + (k - index)) by lia.
      apply Hlast. cbn. lia.
  - cbn. replace (index + S j) with (S index + j) in * by lia.
    apply IH; [done | done |]. intros j' Hj'.
    replace (S index + j') with (index + S j') by lia.
    apply Hlast. cbn. lia.
Qed.

(** X3: in a batch of unassigned instance ids that may repeat, none of them
    the name of a property inherited from [Object.prototype], with the
    desired port absent or within range and every detection resolving, one
    detection is made per position, the answer lists all their ports in
    order, and the port recorded for an instance id is the one detected at its
    last position in the batch. *)
Theorem assignPortsToServers_last_occurrence_wins (srv : PortManagerServer)
    (instanceIds : list string) (port : option Z) (i : nat) (id : string)
    (p : Z) :
  (∀ id, id ∈ instanceIds → serverPortMap srv !! id = None) →
  (∀ id, id ∈ instanceIds → id ∉ Object_prototype_names) →
  port = None
  ∨ (∃ q, port = Some q ∧ (MIN_PORT_NUMBER ≤ q ≤ MAX_PORT_NUMBER)%Z) →
  (∀ n, n < length instanceIds → ∃ q, detectPort n port = Resolved q) →
  instanceIds !! i = Some id →
  (∀ j, i < j → instanceIds !! j ≠ Some id) →
  detectPort i port = Resolved p →
  let r := serve (assign instanceIds port) srv in
  registry_after r !! id = Some p ∧
  response_of r =
    Some (200%Z,
          SendPorts ((λ n, resolved_port (detectPort n port))
                       <$> seq 0 (length instanceIds))).
Proof.
  intros Hfresh Hproto Hport Hdetect Hi Hlast Hp r. subst r.
  rewrite assignPortsToServers_fresh_run;
    [| intros id' Hid'; apply truthy_read_fresh; auto
     | by apply outOfRange_absent_or_within | done].
  unfold registry_after, response_of. cbn. split; [|done].
  assert (Hlt : i < length instanceIds) by (by eapply lookup_lt_Some).
  assert (Hat : ∀ j, instanceIds !! j = Some (at_index instanceIds j)
                     ∨ length instanceIds ≤ j).
  { intros j. unfold at_index.
    destruct (instanceIds !! j) eqn:Hj; [by left|].
    right. by apply lookup_ge_None. }
  assert (Hidx : at_index instanceIds (0 + i) = id)
    by (unfold at_index; cbn; by rewrite Hi).
  rewrite <- Hidx.
  apply recorded_lookup_last.
  - rewrite list_lookup_fmap, lookup_seq_lt by done. cbn. by rewrite Hp.
  - rewrite Hidx. intros ->.
    apply (Hproto "__proto__"); [by eapply list_elem_of_lookup_2|].
    apply proto_in_names.
  - intros j' Hj'. rewrite length_fmap, length_seq in Hj'. cbn.
    intros Heq. apply (Hlast j'); [lia|].
    destruct (Hat j') as [Hj|Hj]; [|lia].
    rewrite Hj, Heq. unfold at_index. by rewrite Hi.
Qed.

Lemma Promise_all_rejected (promises : list Settled) (st : HandlerState) :
  Exists (λ s, ∃ e, s = Rejected e) promises →
  ∃ e, Rejected e ∈ promises ∧ Promise_all promises st = (Thrown e, st).
Proof.
  induction promises as [|[p|e] promises IH]; intros Hex.
  - by apply Exists_nil in Hex.
  - apply Exists_cons in Hex as [[e [=]]|Hex].
    destruct (IH Hex) as (e & He & Hrun). exists e.
    split; [by apply list_elem_of_further|].
    cbn. rewrite Handler_bind_run. by rewrite Hrun.
  - exists e. split; [apply list_elem_of_here | done].
Qed.

(** X4: in a batch of unassigned instance ids none of which is the name of a
    property inherited from [Object.prototype] (so that no element is
    skipped), with the desired port absent or within range, if one of the
    detections is rejected the handler throws a rejection of one of its
    detections, no response is sent, and the server object is left as it
    was: none of the ports that did resolve is recorded. *)
Theorem assignPortsToServers_detection_rejected (srv : PortManagerServer)
    (instanceIds : list string) (port : option Z) (n : nat) (e : BaseError) :
  (∀ id, id ∈ instanceIds → serverPortMap srv !! id = None) →
  (∀ id, id ∈ instanceIds → id ∉ Object_prototype_names) →
  port = None
  ∨ (∃ q, port = Some q ∧ (MIN_PORT_NUMBER ≤ q ≤ MAX_PORT_NUMBER)%Z) →
  n < length instanceIds →
  detectPort n port = Rejected e →
  let r := serve (assign instanceIds port) srv in
  (∃ e' k, k < length instanceIds ∧ detectPort k port = Rejected e'
           ∧ fst r = Thrown e') ∧
  response_of r = None ∧
  this (snd r) = srv.
Proof.
  intros Hfresh Hproto Hport Hn He r. subst r.
  unfold serve, assignPortsToServers, response_of.
  rewrite Handler_bind_run, forEachWith_assignCallback_fresh;
    [| intros id Hid; cbn; apply truthy_read_fresh; auto
     | by apply outOfRange_absent_or_within].
  cbn [List.app length].
  set (promises := (λ n, detectPort n port) <$> seq 0 (length instanceIds)).
  destruct (Promise_all_rejected promises
              {| this := srv; res := freshResponse |}) as (e' & He' & Hrun).
  { apply Exists_exists. exists (Rejected e). split; [|eauto].
    apply list_elem_of_fmap. exists n. split; [done|].
    apply elem_of_seq. lia. }
  rewrite Handler_bind_run, Hrun. cbn. split; [|done].
  apply list_elem_of_fmap in He' as (k & Hk & Hin%elem_of_seq).
  exists e', k. split; [lia|]. by split.
Qed.

Lemma recorded_size (instanceIds : list string) (ports : list Z)
    (index : nat) (m : ServerPortMap) :
  NoDup instanceIds →
  index + length ports ≤ length instanceIds →
  (∀ j, index ≤ j < index + length ports →
        m !! at_index instanceIds j = None) →
  (∀ j, index ≤ j < index + length ports →
        at_index instanceIds j ≠ "__proto__") →
  size (recorded instanceIds ports index m) = size m + length ports.
Proof.
  intros Hnd. revert index m.
  induction ports as [|p ports IH]; intros index m Hlen Hfresh Hproto;
    cbn in *.
  - lia.
  - rewrite assignProperty_insert by (apply Hproto; lia). rewrite IH.
    + rewrite map_size_insert_None by (apply Hfresh; lia). lia.
    + lia.
    + intros j Hj. rewrite lookup_insert_ne.
      * apply Hfresh. lia.
      * apply at_index_NoDup; [done | lia | lia | lia].
    + intros j Hj. apply Hproto. lia.
Qed.

(** X9: after a POST /servers for N distinct unassigned instance ids none of
    which is the name of a property inherited from [Object.prototype]
    (desired port absent or within range, every detection resolving), GET
    /servers answers 200 with the new registry and a count that is the
    previous number of assignments plus N. *)
Theorem getServers_count_after_fresh_batch (srv : PortManagerServer)
    (instanceIds : list string) (port : option Z) :
  NoDup instanceIds →
  (∀ id, id ∈ instanceIds → serverPortMap srv !! id = None) →
  (∀ id, id ∈ instanceIds → id ∉ Object_prototype_names) →
  port = None
  ∨ (∃ q, port = Some q ∧ (MIN_PORT_NUMBER ≤ q ≤ MAX_PORT_NUMBER)%Z) →
  (∀ n, n < length instanceIds → ∃ p, detectPort n port = Resolved p) →
  let r := serve (assign instanceIds port) srv in
  response_of (serve getServers (this (snd r)))
    = Some (200%Z,
            SendServers (registry_after r)
                        (size (serverPortMap srv) + length instanceIds)).
Proof.
  intros Hnd Hfresh Hproto Hport Hdetect r. subst r.
  rewrite assignPortsToServers_fresh_run;
    [| intros id Hid; apply truthy_read_fresh; auto
     | by apply outOfRange_absent_or_within | done].
  unfold getServers. run_handler.
  rewrite recorded_size; [| done | | |].
  - by rewrite length_fmap, length_seq.
  - rewrite length_fmap, length_seq. lia.
  - intros j Hj. rewrite length_fmap, length_seq in Hj.
    apply Hfresh, at_index_elem_of. lia.
  - intros j Hj Heq. rewrite length_fmap, length_seq in Hj.
    apply (Hproto "__proto__"); [|apply proto_in_names].
    rewrite <- Heq. apply at_index_elem_of. lia.
Qed.

End AssignPortsToServersFurther.

(** ** Sequences of requests *)

Section Requests.

Context (MIN_PORT_NUMBER MAX_PORT_NUMBER : Z).

Local Abbreviation routes := (setupRoutes MIN_PORT_NUMBER MAX_PORT_NUMBER).
Local Abbreviation serve_requests :=
  (serve_all MIN_PORT_NUMBER MAX_PORT_NUMBER).

Lemma deleteServerInstance_this (srv : PortManagerServer) (id : string) :
  registry_ok (serverPortMap srv) →
  this (snd (serve (deleteServerInstance id) srv))
    = with_registry srv (delete id (serverPortMap srv)).
Proof.
  intros Hok. unfold deleteServerInstance, with_registry. run_handler.
  destruct (serverPortMap srv !! id) as [p|] eqn:Hid.
  - by rewrite (truthy_read_own _ _ _ Hok Hid).
  - rewrite delete_id by done.
    destruct (truthy_read (readPort (serverPortMap srv) id)); cbn;
      rewrite ?delete_id by done; by destruct srv.
Qed.

(** Every route leaves [this.app] and [this.server] as they are. *)
Lemma setupRoutes_flags (detectPort : nat → option Z → Settled)
    (req : Request) (srv : PortManagerServer) :
  let srv' := this (snd (serve (routes detectPort req) srv)) in
  app srv' = app srv ∧ server srv' = server srv.
Proof.
  destruct req as [|id|ids port|id|]; cbn [setupRoutes].
  - done.
  - unfold getServerPortByInstanceId. run_handler.
    destruct (readPort (serverPortMap srv) id) as [p| |];
      [destruct (truthy p)| |]; done.
  - destruct (assignPortsToServers_this MIN_PORT_NUMBER MAX_PORT_NUMBER
                detectPort srv ids port) as (ports & _ & _ & Hthis).
    cbn zeta. by rewrite Hthis.
  - unfold deleteServerInstance. run_handler.
    by destruct (truthy_read (readPort (serverPortMap srv) id)).
  - unfold closeServer, getServer. run_handler.
    destruct (server srv) eqn:Hs; cbn; rewrite ?Hs; done.
Qed.

Lemma setupRoutes_registry_ok (detectPort : nat → option Z → Settled)
    (req : Request) (srv : PortManagerServer) :
  registry_ok (serverPortMap srv) →
  (∀ n port p, detectPort n port = Resolved p → p ≠ 0%Z) →
  registry_ok (registry_after (serve (routes detectPort req) srv)).
Proof.
  intros Hok Hdetect. destruct req as [|id|ids port|id|]; cbn [setupRoutes].
  - done.
  - unfold getServerPortByInstanceId. run_handler.
    destruct (readPort (serverPortMap srv) id) as [p| |];
      [destruct (truthy p)| |]; done.
  - apply assignPortsToServers_registry_ok; [done|]. intros n p.
    apply Hdetect.
  - by apply deleteServerInstance_registry_ok.
  - unfold closeServer, getServer. run_handler.
    destruct (server srv) eqn:Hs; cbn; rewrite ?Hs; done.
Qed.

(** X6: started from a registry in which every recorded port is nonzero (the
    empty registry of [constructor] is one), the registry keeps that property
    through any sequence of requests, however each of them ends, as long as
    no detection resolves to 0. *)
Theorem serve_all_registry_ok (detect : nat → nat → option Z → Settled)
    (requests : list Request) (k : nat) (srv : PortManagerServer) :
  registry_ok (serverPortMap srv) →
  (∀ k n port p, detect k n port = Resolved p → p ≠ 0%Z) →
  registry_ok (serverPortMap (serve_requests detect requests k srv)).
Proof.
  intros Hok Hdetect. revert k srv Hok.
  induction requests as [|req requests IH]; intros k srv Hok; [done|].
  cbn [serve_all]. apply IH.
  apply (setupRoutes_registry_ok (detect k) req srv Hok). apply Hdetect.
Qed.

Lemma serve_all_flags (detect : nat → nat → option Z → Settled)
    (requests : list Request) (k : nat) (srv : PortManagerServer) :
  app (serve_requests detect requests k srv) = app srv
  ∧ server (serve_requests detect requests k srv) = server srv.
Proof.
  revert k srv. induction requests as [|req requests IH]; intros k srv;
    [done|].
  cbn [serve_all].
  destruct (IH (S k) (this (snd (serve (routes (detect k) req) srv))))
    as [-> ->].
  apply setupRoutes_flags.
Qed.

(** X7: once [init] has run on a new server object, whether it succeeded or
    failed on [listen], and whatever requests (POST /close among them) have
    been served since, another [init] throws the duplicate-instance error. *)
Theorem init_once (PORT : Z) (src : string) (bind bind' : option BaseError)
    (detect : nat → nat → option Z → Settled) (requests : list Request)
    (k : nat) :
  let srv := this (snd (serve (init PORT src bind) constructor)) in
  fst (serve (init PORT src bind') (serve_requests detect requests k srv))
    = Thrown (ErrorWithMessage "utils.PortManagerServer.duplicateInstance"
                               [] None).
Proof.
  intros srv. apply init_duplicate.
  destruct (serve_all_flags detect requests k srv) as [-> _].
  subst srv. destruct bind as [err|]; [|done].
  unfold init, getApp, try_catch, listen, setApp. run_handler.
  by destruct (bool_decide (code err = Some "EADDRINUSE")).
Qed.

Lemma serve_all_release_other (detect : nat → nat → option Z → Settled)
    (instanceIds : list string) (k : nat) (srv : PortManagerServer)
    (id : string) :
  registry_ok (serverPortMap srv) →
  id ∉ instanceIds →
  serverPortMap (serve_requests detect
                   (DELETE_servers_instanceId <$> instanceIds) k srv) !! id
    = serverPortMap srv !! id.
Proof.
  revert k srv. induction instanceIds as [|i ids IH]; intros k srv Hok Hid;
    [done|].
  apply not_elem_of_cons in Hid as [Hne Hid].
  cbn [fmap list_fmap serve_all setupRoutes].
  rewrite deleteServerInstance_this by done.
  rewrite IH; [| by apply map_Forall_delete | done].
  cbn. by apply lookup_delete_ne.
Qed.

Lemma serve_all_release_gone (detect : nat → nat → option Z → Settled)
    (instanceIds : list string) (k : nat) (srv : PortManagerServer)
    (id : string) :
  registry_ok (serverPortMap srv) →
  id ∈ instanceIds ∨ serverPortMap srv !! id = None →
  serverPortMap (serve_requests detect
                   (DELETE_servers_instanceId <$> instanceIds) k srv) !! id
    = None.
Proof.
  revert k srv. induction instanceIds as [|i ids IH]; intros k srv Hok Hid.
  - destruct Hid as [Hid|Hid]; [by apply elem_of_nil in Hid | done].
  - cbn [fmap list_fmap serve_all setupRoutes].
    rewrite deleteServerInstance_this by done.
    apply IH; [by apply map_Forall_delete|]. cbn.
    destruct Hid as [[->|Hid]%elem_of_cons|Hid].
    + right. apply lookup_delete_eq.
    + by left.
    + right. destruct (decide (i = id)) as [->|Hne].
      * apply lookup_delete_eq.
      * by rewrite lookup_delete_ne.
Qed.

(** X5: on a registry satisfying the invariant, a POST /servers for
    unassigned instance ids (desired port absent or within range, every
    detection resolving to a nonzero port) followed by a DELETE for each of
    these ids leaves the registry exactly as it was before the POST. *)
Theorem assign_then_release_restores
    (detect : nat → nat → option Z → Settled)
    (instanceIds : list string) (port : option Z) (k : nat)
    (srv : PortManagerServer) :
  registry_ok (serverPortMap srv) →
  (∀ id, id ∈ instanceIds → serverPortMap srv !! id = None) →
  port = None
  ∨ (∃ q, port = Some q ∧ (MIN_PORT_NUMBER ≤ q ≤ MAX_PORT_NUMBER)%Z) →
  (∀ n, n < length instanceIds →
        ∃ p, detect k n port = Resolved p ∧ p ≠ 0%Z) →
  serverPortMap
    (serve_requests detect
       (POST_servers instanceIds port
        :: (DELETE_servers_instanceId <$> instanceIds)) k srv)
    = serverPortMap srv.
Proof.
  intros Hok Hfresh Hport Hdetect.
  cbn [serve_all setupRoutes].
  destruct (assignPortsToServers_this MIN_PORT_NUMBER MAX_PORT_NUMBER
              (detect k) srv instanceIds port)
    as (ports & Hlen & Hports & ->).
  assert (Hok' : registry_ok
                   (recorded instanceIds ports 0 (serverPortMap srv))).
  { apply recorded_registry_ok; [done|].
    eapply Forall_impl; [exact Hports|]. cbn. intros p (n & Hn & Hp).
    destruct (Hdetect n Hn) as (p' & Hp' & Hnz). congruence. }
  apply map_eq. intros id.
  destruct (decide (id ∈ instanceIds)) as [Hin|Hnin].
  - rewrite serve_all_release_gone; [by rewrite Hfresh | done | by left].
  - rewrite serve_all_release_other by done. cbn.
    apply recorded_other. intros j Hj Heq. apply Hnin. rewrite <- Heq.
    apply at_index_elem_of. lia.
Qed.

End Requests.

(** X8: on a server object whose [app] is not set yet, when [listen] fails
    with an error whose code is not EADDRINUSE, [init] throws that very
    error; [this.app] is set by then, [this.server] is not touched and the
    registry is kept. *)
Theorem init_other_failure_rethrown (PORT : Z) (src : string)
    (err : BaseError) (srv : PortManagerServer) :
  app srv = false →
  code err ≠ Some "EADDRINUSE" →
  serve (init PORT src (Some err)) srv =
    (Thrown err,
     {| this := {| app := true; server := server srv;
                   serverPortMap := serverPortMap srv |};
        res := freshResponse |}).
Proof.
  intros Happ Hcode. unfold init, getApp, try_catch, listen, setApp.
  run_handler. rewrite Happ. cbn.
  by rewrite bool_decide_eq_false_2.
Qed.

(** ** Instances of the further theorems *)

Lemma detect_preferred_nonzero (n : nat) (port : option Z) (p : Z) :
  detect_preferred n port = Resolved p → p ≠ 0%Z.
Proof.
  unfold detect_preferred. intros [= <-].
  destruct port as [q|]; cbn; [|lia].
  unfold truthy. destruct (Z.eqb_spec q 0); cbn; lia.
Qed.

Lemma assignPortsToServers_other_ids_untouched_witness :
  ("z" ∉ ["a"; "b"]) ∧
  registry_after (serve (ports_1024_65535 detect_preferred ["a"; "b"] None)
                        (running {[ "z" := 4000%Z ]})) !! "z"
    = Some 4000%Z.
Proof.
  assert (Hz : "z" ∉ ["a"; "b"]) by by_decide.
  split; [exact Hz|].
  exact (assignPortsToServers_other_ids_untouched 1024 65535 detect_preferred
           (running {[ "z" := 4000%Z ]}) ["a"; "b"] None "z" Hz).
Defined.

Lemma assignPortsToServers_all_assigned_witness :
  ∃ existing,
    ({[ "a" := 3000%Z ]} : ServerPortMap) !! "a" = Some existing ∧
    response_of (serve (ports_1024_65535 detect_preferred ["a"; "a"]
                                         (Some 5000%Z))
                       (running {[ "a" := 3000%Z ]}))
      = Some (409%Z, text409 "a" existing).
Proof.
  refine (proj2 (assignPortsToServers_all_assigned 1024 65535
                   detect_preferred (running {[ "a" := 3000%Z ]}) "a" ["a"]
                   (Some 5000%Z) _ _)).
  - apply registry_ok_singleton. lia.
  - intros i [->|Hi]%elem_of_cons; [by eexists|].
    apply list_elem_of_singleton in Hi as ->. by eexists.
Defined.

Lemma assignPortsToServers_last_occurrence_wins_witness :
  registry_after (serve (ports_1024_65535 detect_preferred ["a"; "a"] None)
                        (running ∅)) !! "a"
    = Some 3001%Z.
Proof.
  refine (proj1 (assignPortsToServers_last_occurrence_wins 1024 65535
                   detect_preferred (running ∅) ["a"; "a"] None 1 "a" 3001
                   _ _ _ _ _ _ _)).
  - intros id _. apply lookup_empty.
  - intros id [->|Hid]%elem_of_cons;
      [| apply list_elem_of_singleton in Hid as ->]; by_decide.
  - by left.
  - intros n _. by eexists.
  - reflexivity.
  - intros [|[|j]] Hj; [lia | lia | done].
  - reflexivity.
Defined.

Lemma assignPortsToServers_detection_rejected_witness :
  response_of (serve (ports_1024_65535 detect_second_rejected ["a"; "b"] None)
                     (running ∅)) = None ∧
  this (snd (serve (ports_1024_65535 detect_second_rejected ["a"; "b"] None)
                   (running ∅))) = running ∅.
Proof.
  refine (proj2 (assignPortsToServers_detection_rejected 1024 65535
                   detect_second_rejected (running ∅) ["a"; "b"] None 1
                   (SystemError (Some "EACCES") "permission denied")
                   _ _ _ _ _)).
  - intros id _. apply lookup_empty.
  - intros id [->|Hid]%elem_of_cons;
      [| apply list_elem_of_singleton in Hid as ->]; by_decide.
  - by left.
  - cbn. lia.
  - reflexivity.
Defined.

Lemma getServers_count_after_fresh_batch_witness :
  response_of
    (serve getServers
       (this (snd (serve (ports_1024_65535 detect_preferred ["a"; "b"] None)
                         (running {[ "z" := 4000%Z ]})))))
    = Some (200%Z,
            SendServers
              (registry_after
                 (serve (ports_1024_65535 detect_preferred ["a"; "b"] None)
                        (running {[ "z" := 4000%Z ]})))
              3).
Proof.
  assert (Hnd : NoDup ["a"; "b"]) by by_decide.
  assert (Hfresh : ∀ id, id ∈ ["a"; "b"] →
                         ({[ "z" := 4000%Z ]} : ServerPortMap) !! id = None).
  { intros id Hid. apply lookup_singleton_ne. intros <-. revert Hid.
    by_decide. }
  assert (Hproto : ∀ id, id ∈ ["a"; "b"] → id ∉ Object_prototype_names).
  { intros id [->|Hid]%elem_of_cons;
      [| apply list_elem_of_singleton in Hid as ->]; by_decide. }
  assert (Hdetect : ∀ n, n < 2 → ∃ p, detect_preferred n None = Resolved p)
    by (intros n _; by eexists).
  exact (getServers_count_after_fresh_batch 1024 65535 detect_preferred
           (running {[ "z" := 4000%Z ]}) ["a"; "b"] None
           Hnd Hfresh Hproto (or_introl eq_refl) Hdetect).
Defined.

Lemma serve_all_registry_ok_witness :
  registry_ok
    (serverPortMap
       (serve_all 1024 65535 (λ _, detect_preferred)
          [POST_servers ["a"; "b"] None; DELETE_servers_instanceId "a";
           POST_servers ["b"; "c"] (Some 5000%Z); POST_close; GET_servers]
          0 constructor)).
Proof.
  apply (serve_all_registry_ok 1024 65535 (λ _, detect_preferred)).
  - apply registry_ok_constructor.
  - intros _ n port p. apply detect_preferred_nonzero.
Defined.

Lemma assign_then_release_restores_witness :
  serverPortMap
    (serve_all 1024 65535 (λ _, detect_preferred)
       [POST_servers ["a"; "b"] None;
        DELETE_servers_instanceId "a"; DELETE_servers_instanceId "b"]
       0 (running {[ "z" := 4000%Z ]}))
    = {[ "z" := 4000%Z ]}.
Proof.
  assert (Hok : registry_ok {[ "z" := 4000%Z ]})
    by (apply registry_ok_singleton; lia).
  assert (Hfresh : ∀ id, id ∈ ["a"; "b"] →
                         ({[ "z" := 4000%Z ]} : ServerPortMap) !! id = None).
  { intros id Hid. apply lookup_singleton_ne. intros <-. revert Hid.
    by_decide. }
  assert (Hdetect : ∀ n, n < 2 →
            ∃ p, detect_preferred n None = Resolved p ∧ p ≠ 0%Z)
    by (intros n _; eexists; split; [reflexivity | cbn; lia]).
  exact (assign_then_release_restores 1024 65535 (λ _, detect_preferred)
           ["a"; "b"] None 0 (running {[ "z" := 4000%Z ]})
           Hok Hfresh (or_introl eq_refl) Hdetect).
Defined.

Lemma init_other_failure_rethrown_witness :
  fst (serve (init 8080 "function i18n" (Some (SystemError (Some "EACCES")
                                                 "permission denied")))
             constructor)
    = Thrown (SystemError (Some "EACCES") "permission denied").
Proof.
  by rewrite (init_other_failure_rethrown 8080 "function i18n"
                (SystemError (Some "EACCES") "permission denied")
                constructor eq_refl).
Defined.

(** * Key order of accounts and configs *)

Lemma array_index_examples :
  array_index "0" = Some 0%N ∧ array_index "42" = Some 42%N
  ∧ array_index "4294967294" = Some 4294967294%N
  ∧ array_index "4294967295" = None ∧ array_index "007" = None
  ∧ array_index "-1" = None ∧ array_index "1.5" = None
  ∧ array_index "" = None ∧ array_index "name" = None.
Proof. by vm_compute. Qed.

Lemma own_property_app (o1 o2 : JsObject) (key : string) :
  own_property (o1 ++ o2) key =
    match own_property o1 key with
    | Some v => Some v
    | None => own_property o2 key
    end.
Proof.
  induction o1 as [|[k v] o1 IH]; [done|]. cbn.
  by destruct (decide (k = key)).
Qed.

Lemma own_property_filter (P : string → Prop)
    `{!∀ kv : string * JsVal, Decision (P kv.1)} `{!∀ k, Decision (P k)}
    (o : JsObject) (key : string) :
  own_property (filter (λ kv, P kv.1) o) key =
    if decide (P key) then own_property o key else None.
Proof.
  induction o as [|[k v] o IH]; [by case_decide|].
  rewrite filter_cons. cbn [fst own_property].
  destruct (decide (P k)) as [Hk|Hk]; cbn [own_property].
  - destruct (decide (k = key)) as [->|Hne];
      [by rewrite !decide_True by done | done].
  - rewrite IH. destruct (decide (k = key)) as [->|Hne]; [|done].
    by rewrite !decide_False by done.
Qed.

Lemma own_property_insert_by_index (k : string) (v : JsVal) (o : JsObject)
    (key : string) :
  own_property (insert_by_index (k, v) o) key =
    if decide (k = key) then Some v else own_property o key.
Proof.
  induction o as [|[k' v'] o IH]; [done|]. cbn [insert_by_index].
  destruct (N.leb_spec (index_of (k, v)) (index_of (k', v'))) as [Hle|Hlt];
    [done|].
  cbn [own_property]. rewrite IH.
  destruct (decide (k' = key)) as [->|Hne]; [|done].
  destruct (decide (k = key)) as [->|Hne']; [|done].
  unfold index_of in Hlt. cbn in Hlt. lia.
Qed.

Lemma own_property_sort_by_index (o : JsObject) (key : string) :
  own_property (sort_by_index o) key = own_property o key.
Proof.
  induction o as [|[k v] o IH]; [done|]. cbn [sort_by_index foldr].
  rewrite own_property_insert_by_index. fold (sort_by_index o).
  by rewrite IH.
Qed.

Lemma own_property_own_properties_order (created : JsObject) (key : string) :
  own_property (own_properties_order created) key = own_property created key.
Proof.
  unfold own_properties_order.
  rewrite own_property_app, own_property_sort_by_index.
  rewrite (own_property_filter (λ k, is_array_index k)).
  rewrite (own_property_filter (λ k, ¬ is_array_index k)).
  destruct (decide (is_array_index key)) as [Hi|Hi].
  - rewrite decide_False by (intros H; by apply H).
    by destruct (own_property created key).
  - by rewrite decide_True.
Qed.

Lemma own_property_rest_of (picked : list string) (o : JsObject)
    (key : string) :
  own_property (rest_of picked o) key =
    if decide (key ∈ picked) then None else own_property o key.
Proof.
  unfold rest_of. rewrite own_property_own_properties_order.
  rewrite (own_property_filter (λ k, k ∉ picked)).
  destruct (decide (key ∈ picked)) as [Hin|Hin].
  - by rewrite decide_False by (intros H; by apply H).
  - by rewrite decide_True.
Qed.

Lemma own_property_None (o : JsObject) (key : string) :
  own_property o key = None ↔ key ∉ keys o.
Proof.
  unfold keys. induction o as [|[k v] o IH]; cbn.
  - split; [intros _; apply not_elem_of_nil | done].
  - rewrite not_elem_of_cons. destruct (decide (k = key)) as [->|Hne].
    + split; [done | by intros [? _]].
    + rewrite IH. split; [by split | by intros [_ ?]].
Qed.

(** The sort keeps what holds of every property, returns an ascending list
    and leaves an ascending list as it is. *)
Lemma Forall_insert_by_index (P : string * JsVal → Prop)
    (x : string * JsVal) (o : JsObject) :
  P x → Forall P o → Forall P (insert_by_index x o).
Proof.
  intros Hx. induction 1 as [|y o Hy Ho IH]; cbn [insert_by_index].
  - by constructor.
  - destruct (index_of x <=? index_of y)%N; by repeat constructor.
Qed.

Lemma Forall_sort_by_index (P : string * JsVal → Prop) (o : JsObject) :
  Forall P o → Forall P (sort_by_index o).
Proof.
  induction 1 as [|x o Hx Ho IH]; [constructor|].
  cbn [sort_by_index foldr]. by apply Forall_insert_by_index.
Qed.

Lemma ascending_insert_by_index (x : string * JsVal) (o : JsObject) :
  ascending o → ascending (insert_by_index x o).
Proof.
  unfold ascending. induction 1 as [|y o Ho IH Hhd]; cbn [insert_by_index].
  - by repeat constructor.
  - destruct (N.leb_spec (index_of x) (index_of y)) as [Hle|Hlt].
    + by repeat constructor.
    + constructor; [done|].
      destruct Hhd as [|z o Hyz]; cbn [insert_by_index].
      * constructor. lia.
      * destruct (index_of x <=? index_of z)%N; constructor; [lia | done].
Qed.

Lemma ascending_sort_by_index (o : JsObject) : ascending (sort_by_index o).
Proof.
  induction o as [|x o IH]; [constructor|].
  cbn [sort_by_index foldr]. by apply ascending_insert_by_index.
Qed.

Lemma sort_by_index_ascending (o : JsObject) :
  ascending o → sort_by_index o = o.
Proof.
  unfold ascending. induction 1 as [|x o Ho IH Hhd]; [done|].
  cbn [sort_by_index foldr]. fold (sort_by_index o). rewrite IH.
  destruct Hhd as [|y o Hxy]; [done|]. cbn [insert_by_index].
  by rewrite (proj2 (N.leb_le _ _) Hxy).
Qed.

Lemma filter_Forall_id {A} (P : A → Prop) `{!∀ x, Decision (P x)}
    (l : list A) :
  Forall P l → filter P l = l.
Proof.
  induction 1 as [|x l Hx _ IH]; [done|].
  by rewrite filter_cons_True, IH.
Qed.

Lemma filter_Forall_nil {A} (P : A → Prop) `{!∀ x, Decision (P x)}
    (l : list A) :
  Forall (λ x, ¬ P x) l → filter P l = [].
Proof.
  induction 1 as [|x l Hx _ IH]; [done|].
  by rewrite filter_cons_False.
Qed.

Lemma Forall_filter_self {A} (P : A → Prop) `{!∀ x, Decision (P x)}
    (l : list A) :
  Forall P (filter P l).
Proof. apply Forall_forall. by intros x [? _]%list_elem_of_filter. Qed.

Lemma Forall_filter_keep {A} (P Q : A → Prop) `{!∀ x, Decision (P x)}
    (l : list A) :
  Forall Q l → Forall Q (filter P l).
Proof.
  rewrite !Forall_forall. intros HQ x [_ Hx]%list_elem_of_filter. auto.
Qed.

(** The property order of an object created with properties [named], none
    of them an array index, followed by the properties [o]. *)
Lemma own_properties_order_named (named o : JsObject) :
  Forall (λ kv, ¬ is_array_index kv.1) named →
  own_properties_order (named ++ o)
    = sort_by_index (filter (λ kv, is_array_index kv.1) o)
      ++ named ++ filter (λ kv, ¬ is_array_index kv.1) o.
Proof.
  intros Hnamed. unfold own_properties_order. rewrite !filter_app.
  rewrite (filter_Forall_nil (λ kv, is_array_index kv.1) named)
    by (eapply Forall_impl; [exact Hnamed|]; by intros kv H).
  by rewrite (filter_Forall_id (λ kv, ¬ is_array_index kv.1) named).
Qed.

(** An object in property order is created again in the same order. *)
Lemma own_properties_order_ordered (indices named others : JsObject) :
  Forall (λ kv, is_array_index kv.1) indices → ascending indices →
  Forall (λ kv, ¬ is_array_index kv.1) named →
  Forall (λ kv, ¬ is_array_index kv.1) others →
  own_properties_order (named ++ indices ++ others)
    = indices ++ named ++ others.
Proof.
  intros Hidx Hasc Hnamed Hothers.
  rewrite own_properties_order_named by done. rewrite !filter_app.
  rewrite (filter_Forall_id (λ kv, is_array_index kv.1) indices) by done.
  rewrite (filter_Forall_nil (λ kv, is_array_index kv.1) others)
    by (eapply Forall_impl; [exact Hothers|]; by intros kv H).
  rewrite (filter_Forall_nil (λ kv, ¬ is_array_index kv.1) indices)
    by (eapply Forall_impl; [exact Hidx|]; intros kv H H'; by apply H').
  rewrite (filter_Forall_id (λ kv, ¬ is_array_index kv.1) others) by done.
  rewrite app_nil_r, sort_by_index_ascending by done. done.
Qed.

Lemma own_properties_order_twice (created : JsObject) :
  own_properties_order (own_properties_order created)
    = own_properties_order created.
Proof.
  unfold own_properties_order at 2 3.
  apply (own_properties_order_ordered _ []).
  - apply Forall_sort_by_index, Forall_filter_self.
  - apply ascending_sort_by_index.
  - constructor.
  - apply (Forall_filter_self (λ kv, ¬ is_array_index kv.1)).
Qed.

(** The shape both ordering functions share: an object literal that defines
    the properties [named], whose keys are among [picked] and are no array
    indices, and then spreads the rest of [o]. *)
Lemma ordered_literal (named : JsObject) (picked : list string)
    (o : JsObject) :
  Forall (λ kv, ¬ is_array_index kv.1) named →
  let others := filter (λ kv, kv.1 ∉ picked) o in
  own_properties_order (named ++ rest_of picked o)
    = sort_by_index (filter (λ kv, is_array_index kv.1) others)
      ++ named ++ filter (λ kv, ¬ is_array_index kv.1) others.
Proof.
  intros Hnamed others. unfold rest_of. fold others.
  unfold own_properties_order at 2.
  apply own_properties_order_ordered.
  - apply Forall_sort_by_index, Forall_filter_self.
  - apply ascending_sort_by_index.
  - done.
  - apply (Forall_filter_self (λ kv, ¬ is_array_index kv.1)).
Qed.

Lemma rest_of_ordered_literal (named named' : JsObject)
    (picked : list string) (o : JsObject) :
  Forall (λ kv, ¬ is_array_index kv.1) named →
  Forall (λ kv, ¬ is_array_index kv.1) named' →
  Forall (λ kv, kv.1 ∈ picked) named' →
  own_properties_order
    (named ++ rest_of picked
                (own_properties_order (named' ++ rest_of picked o)))
    = own_properties_order (named ++ rest_of picked o).
Proof.
  intros Hnamed Hnamed' Hpicked.
  rewrite (ordered_literal named' picked o) by done.
  rewrite !ordered_literal by done. cbn zeta.
  set (others := filter (λ kv, kv.1 ∉ picked) o).
  set (indices := sort_by_index (filter (λ kv, is_array_index kv.1) others)).
  set (names := filter (λ kv, ¬ is_array_index kv.1) others).
  assert (Hothers : Forall (λ kv, kv.1 ∉ picked) others)
    by apply (Forall_filter_self (λ kv, kv.1 ∉ picked)).
  assert (Hindices : Forall (λ kv, kv.1 ∉ picked) indices)
    by by apply Forall_sort_by_index, Forall_filter_keep.
  assert (Hnames : Forall (λ kv, kv.1 ∉ picked) names)
    by by apply Forall_filter_keep.
  rewrite !(filter_app (λ kv, kv.1 ∉ picked)).
  rewrite (filter_Forall_id (λ kv, kv.1 ∉ picked) indices) by done.
  rewrite (filter_Forall_id (λ kv, kv.1 ∉ picked) names) by done.
  rewrite (filter_Forall_nil (λ kv, kv.1 ∉ picked) named')
    by (eapply Forall_impl; [exact Hpicked|]; intros kv H H'; by apply H').
  cbn [List.app]. rewrite !filter_app.
  assert (Hidx : Forall (λ kv, is_array_index kv.1) indices)
    by apply Forall_sort_by_index, Forall_filter_self.
  assert (Hnidx : Forall (λ kv, ¬ is_array_index kv.1) names)
    by apply (Forall_filter_self (λ kv, ¬ is_array_index kv.1)).
  rewrite (filter_Forall_id (λ kv, is_array_index kv.1) indices) by done.
  rewrite (filter_Forall_nil (λ kv, is_array_index kv.1) names)
    by (eapply Forall_impl; [exact Hnidx|]; by intros kv H).
  rewrite (filter_Forall_nil (λ kv, ¬ is_array_index kv.1) indices)
    by (eapply Forall_impl; [exact Hidx|]; intros kv H H'; by apply H').
  rewrite (filter_Forall_id (λ kv, ¬ is_array_index kv.1) names) by done.
  rewrite app_nil_r, sort_by_index_ascending
    by apply ascending_sort_by_index.
  done.
Qed.

Lemma prop_getOrderedAccount (unorderedAccount : JsObject) (key : string) :
  prop (getOrderedAccount unorderedAccount) key = prop unorderedAccount key.
Proof.
  unfold getOrderedAccount, prop at 1. cbn zeta.
  rewrite own_property_own_properties_order.
  cbn [List.app own_property].
  repeat (case_decide; [by subst|]).
  rewrite own_property_rest_of, decide_False; [done|].
  intros Hin. repeat (apply elem_of_cons in Hin as [?|Hin]; [done|]).
  by apply elem_of_nil in Hin.
Qed.

Lemma getOrderedAccount_twice (unorderedAccount : JsObject) :
  getOrderedAccount (getOrderedAccount unorderedAccount)
    = getOrderedAccount unorderedAccount.
Proof.
  unfold getOrderedAccount at 1. cbn zeta.
  rewrite !prop_getOrderedAccount. unfold getOrderedAccount. cbn zeta.
  apply rest_of_ordered_literal; repeat constructor; by_decide.
Qed.

(** X10: [getOrderedAccount] loses and changes no value: reading any
    property of its result gives what reading it from the argument gives. *)
Theorem getOrderedAccount_prop (unorderedAccount : JsObject) (key : string) :
  prop (getOrderedAccount unorderedAccount) key = prop unorderedAccount key.
Proof. apply prop_getOrderedAccount. Qed.

(** X11: [getOrderedAccount] is idempotent: ordering an ordered account
    gives it back, key order included. *)
Theorem getOrderedAccount_idempotent (unorderedAccount : JsObject) :
  getOrderedAccount (getOrderedAccount unorderedAccount)
    = getOrderedAccount unorderedAccount.
Proof. apply getOrderedAccount_twice. Qed.

Lemma keys_filter (P : string → Prop)
    `{!∀ kv : string * JsVal, Decision (P kv.1)} `{!∀ k, Decision (P k)}
    (o : JsObject) :
  keys (filter (λ kv, P kv.1) o) = filter P (keys o).
Proof.
  unfold keys. induction o as [|[k v] o IH]; [done|].
  rewrite fmap_cons, !filter_cons. cbn [fst].
  destruct (decide (P k)) as [Hk|Hk].
  - by rewrite !decide_True, fmap_cons, IH by done.
  - by rewrite !decide_False by done.
Qed.

Lemma no_array_index_keys (o : JsObject) :
  Forall (λ k, is_array_index k = false) (keys o) →
  Forall (λ kv, ¬ is_array_index kv.1) o.
Proof.
  unfold keys. rewrite Forall_fmap. intros Hkeys.
  eapply Forall_impl; [exact Hkeys|].
  intros kv Hkv. cbn in Hkv. by apply Is_true_false_2.
Qed.

(** The array indices among the keys of an account come first in the result,
    before [name]. *)
Lemma getOrderedAccount_array_indices_first :
  keys (getOrderedAccount [("authType", JStr "apikey"); ("10", JNum 1);
                           ("apiKey", JStr "k"); ("9", JNum 2);
                           ("accountId", JNum 7)])
    = ["9"; "10"; "name"; "accountId"; "env"; "authType"; "apiKey"].
Proof. by vm_compute. Qed.

(** X12: when no key of the argument is an array index, the keys of the
    result of [getOrderedAccount] are [name], [accountId], [env], [authType]
    in this order, followed by the other keys of the argument in the order
    they had; if no key repeats in the argument, none repeats in the
    result. *)
Theorem getOrderedAccount_keys (unorderedAccount : JsObject) :
  Forall (λ k, is_array_index k = false) (keys unorderedAccount) →
  keys (getOrderedAccount unorderedAccount)
    = ["name"; "accountId"; "env"; "authType"]
      ++ filter (λ k, k ∉ ["name"; "accountId"; "env"; "authType"])
                (keys unorderedAccount)
  ∧ (NoDup (keys unorderedAccount) →
     NoDup (keys (getOrderedAccount unorderedAccount))).
Proof.
  intros Hnames%no_array_index_keys.
  assert (Hkeys : keys (getOrderedAccount unorderedAccount)
            = ["name"; "accountId"; "env"; "authType"]
              ++ filter (λ k, k ∉ ["name"; "accountId"; "env"; "authType"])
                        (keys unorderedAccount)).
  { unfold getOrderedAccount. cbn zeta.
    rewrite ordered_literal by (repeat constructor; by_decide). cbn zeta.
    set (others := filter (λ kv, kv.1 ∉ ["name"; "accountId"; "env";
                                          "authType"]) unorderedAccount).
    assert (Hothers : Forall (λ kv, ¬ is_array_index kv.1) others)
      by by apply Forall_filter_keep.
    rewrite (filter_Forall_nil (λ kv, is_array_index kv.1) others)
      by (eapply Forall_impl; [exact Hothers|]; by intros kv H).
    rewrite (filter_Forall_id (λ kv, ¬ is_array_index kv.1) others) by done.
    cbn [sort_by_index foldr List.app]. subst others.
    unfold keys at 1. rewrite !fmap_cons. cbn [fst]. do 4 f_equal.
    apply (keys_filter (λ k, k ∉ ["name"; "accountId"; "env";
                                  "authType"])). }
  split; [done|]. intros Hnd. rewrite Hkeys.
  apply NoDup_app. split; [by_decide|]. split.
  - intros k Hk [Hnot _]%list_elem_of_filter. by apply Hnot.
  - by apply NoDup_filter.
Qed.

Lemma getOrderedConfig_settings_prop (unorderedConfig : ConfigObject)
    (key : string) :
  prop (settings (getOrderedConfig unorderedConfig)) key =
    if decide (key = "defaultAccount") then
      if js_truthy (prop (settings unorderedConfig) "defaultAccount")
      then prop (settings unorderedConfig) "defaultAccount"
      else JUndefined
    else if decide (key = "accounts") then JUndefined
    else prop (settings unorderedConfig) key.
Proof.
  unfold getOrderedConfig. cbn zeta. cbn [settings].
  unfold prop at 1. rewrite own_property_own_properties_order.
  unfold spread_if_truthy.
  destruct (js_truthy (prop (settings unorderedConfig) "defaultAccount"));
    cbn [List.app own_property];
    repeat (case_decide; [by subst|]);
    rewrite own_property_rest_of;
    repeat (case_decide; try done);
    exfalso;
    match goal with
    | H : _ ∈ _ |- _ =>
        repeat (apply elem_of_cons in H as [?|H]; [done|]);
        by apply elem_of_nil in H
    | H : ¬ _ ∈ _ |- _ => apply H; subst; repeat constructor
    end.
Qed.

(** X13: [getOrderedConfig] keeps the value of every property of the config
    other than [defaultAccount] and [accounts]; [defaultAccount] keeps its
    value when it is truthy and is dropped when it is falsy (0, the empty
    string, [false], [null]); the accounts are the ordered accounts, one for
    one. *)
Theorem getOrderedConfig_values (unorderedConfig : ConfigObject)
    (key : string) :
  key ≠ "defaultAccount" → key ≠ "accounts" →
  let ordered := getOrderedConfig unorderedConfig in
  let defaultAccount := prop (settings unorderedConfig) "defaultAccount" in
  prop (settings ordered) key = prop (settings unorderedConfig) key ∧
  prop (settings ordered) "defaultAccount"
    = (if js_truthy defaultAccount then defaultAccount else JUndefined) ∧
  (js_truthy defaultAccount = false →
   "defaultAccount" ∉ keys (settings ordered)) ∧
  accountObjects ordered
    = getOrderedAccount <$> accountObjects unorderedConfig.
Proof.
  intros Hd Ha ordered defaultAccount. subst ordered defaultAccount.
  rewrite !getOrderedConfig_settings_prop.
  rewrite (decide_False (P := key = "defaultAccount")) by done.
  rewrite (decide_False (P := key = "accounts")) by done.
  rewrite (decide_True (P := "defaultAccount" = "defaultAccount")) by done.
  split; [done|]. split; [done|]. split; [|done].
  intros Hfalsy. apply own_property_None.
  unfold getOrderedConfig. cbn zeta. cbn [settings].
  rewrite own_property_own_properties_order.
  unfold spread_if_truthy. rewrite Hfalsy. cbn [List.app own_property].
  repeat (rewrite decide_False by done).
  rewrite own_property_rest_of. by rewrite decide_True by repeat constructor.
Qed.

(** X14: [getOrderedConfig] is idempotent: ordering an ordered config gives
    it back, key order included. *)
Theorem getOrderedConfig_idempotent (unorderedConfig : ConfigObject) :
  getOrderedConfig (getOrderedConfig unorderedConfig)
    = getOrderedConfig unorderedConfig.
Proof.
  unfold getOrderedConfig at 1. cbn zeta.
  rewrite !getOrderedConfig_settings_prop.
  repeat (rewrite decide_True by done || rewrite decide_False by done).
  unfold getOrderedConfig. cbn zeta. cbn [settings accountObjects].
  f_equal.
  - assert (Hspread :
      spread_if_truthy "defaultAccount"
        (if js_truthy (prop (settings unorderedConfig) "defaultAccount")
         then prop (settings unorderedConfig) "defaultAccount"
         else JUndefined)
      = spread_if_truthy "defaultAccount"
          (prop (settings unorderedConfig) "defaultAccount")).
    { unfold spread_if_truthy.
      destruct (js_truthy (prop (settings unorderedConfig) "defaultAccount"))
        eqn:Ht; [by rewrite Ht | done]. }
    rewrite Hspread, !(app_assoc (spread_if_truthy _ _)).
    apply rest_of_ordered_literal;
      unfold spread_if_truthy; destruct (js_truthy _);
      repeat constructor; by_decide.
  - rewrite <- list_fmap_compose. apply list_fmap_ext.
    intros _ o _. apply getOrderedAccount_twice.
Qed.

(** * validateConfig *)

Section ValidateConfigProperties.

Context (has_whitespace : string → bool).

Lemma every_account_valid_iff
    (accounts : list (option CLIAccount_DEPRECATED))
    (accountIdsHash : gset Z) (accountNamesHash : gset string) :
  every_account_valid has_whitespace accounts accountIdsHash accountNamesHash
    = true
  ↔ Forall (entry_valid has_whitespace) accounts
    ∧ NoDup (account_ids accounts)
    ∧ NoDup (account_names accounts)
    ∧ (∀ i, i ∈ account_ids accounts → i ∉ accountIdsHash)
    ∧ (∀ n, n ∈ account_names accounts → n ∉ accountNamesHash).
Proof.
  revert accountIdsHash accountNamesHash.
  induction accounts as [|[cfg|] accounts IH]; intros I N.
  - cbn. split; [|done]. intros _.
    split; [constructor|]. split; [constructor|]. split; [constructor|].
    split; intros ? Hin; by apply elem_of_nil in Hin.
  - cbn [every_account_valid].
    destruct (portalId cfg) as [accountId|] eqn:Hid.
    2:{ split; [done|]. intros (Hall & _).
        apply Forall_cons in Hall as [(c & a & [= <-] & Ha & _) _].
        congruence. }
    unfold truthy. destruct (Z.eqb_spec accountId 0) as [->|Hnz]; cbn [negb].
    { split; [done|]. intros (Hall & _).
      apply Forall_cons in Hall as [(c & a & [= <-] & Ha & Hz & _) _].
      congruence. }
    assert (Hids : account_ids (Some cfg :: accounts)
                   = accountId :: account_ids accounts).
    { unfold account_ids. cbn. by rewrite Hid. }
    destruct (bool_decide_reflect (accountId ∈ I)) as [HinI|HninI].
    { split; [done|]. intros (_ & _ & _ & HI & _).
      exfalso. apply (HI accountId); [|done]. rewrite Hids. constructor. }
    destruct (truthy_name cfg) as [n|] eqn:Hname.
    + assert (Hnames : account_names (Some cfg :: accounts)
                       = n :: account_names accounts).
      { unfold account_names. cbn. by rewrite Hname. }
      unfold hash_truthy.
      destruct (bool_decide_reflect (n ∈ Object_prototype_names))
        as [Hproto|Hproto]; cbn [orb].
      { split; [done|]. intros (Hall & _).
        apply Forall_cons in Hall as [(c & a & [= <-] & _ & _ & Hn) _].
        by destruct (Hn n Hname). }
      destruct (bool_decide_reflect (n ∈ N)) as [HinN|HninN].
      { split; [done|]. intros (_ & _ & _ & _ & HN).
        exfalso. apply (HN n); [|done]. rewrite Hnames. constructor. }
      destruct (has_whitespace n) eqn:Hws.
      { split; [done|]. intros (Hall & _).
        apply Forall_cons in Hall as [(c & a & [= <-] & _ & _ & Hn) _].
        destruct (Hn n Hname). congruence. }
      rewrite IH, Hids, Hnames, !NoDup_cons. split.
      * intros (Hall & Hndi & Hndn & HI & HN).
        split; [|split; [|split; [|split]]].
        -- constructor; [|done]. exists cfg, accountId.
           split; [done|]. split; [done|]. split; [done|].
           intros n' Hn'. rewrite Hname in Hn'. by injection Hn' as <-.
        -- split; [|done]. intros Hin. apply (HI _ Hin).
           apply elem_of_union. left. by apply elem_of_singleton.
        -- split; [|done]. intros Hin. apply (HN _ Hin).
           apply elem_of_union. left. by apply elem_of_singleton.
        -- intros i [->|Hin]%elem_of_cons; [done|].
           intros HiI. apply (HI i Hin), elem_of_union. by right.
        -- intros m [->|Hin]%elem_of_cons; [done|].
           intros HmN. apply (HN m Hin), elem_of_union. by right.
      * intros (Hall & [Hai Hndi] & [Han Hndn] & HI & HN).
        apply Forall_cons in Hall as [_ Hall].
        split; [done|]. split; [done|]. split; [done|]. split.
        -- intros i Hin. apply not_elem_of_union. split.
           ++ apply not_elem_of_singleton. by intros ->.
           ++ apply HI. by constructor.
        -- intros m Hin. apply not_elem_of_union. split.
           ++ apply not_elem_of_singleton. by intros ->.
           ++ apply HN. by constructor.
    + assert (Hnames : account_names (Some cfg :: accounts)
                       = account_names accounts).
      { unfold account_names. cbn. by rewrite Hname. }
      rewrite IH, Hids, Hnames, !NoDup_cons. split.
      * intros (Hall & Hndi & Hndn & HI & HN).
        split; [|split; [|split; [|split]]].
        -- constructor; [|done]. exists cfg, accountId.
           split; [done|]. split; [done|]. split; [done|].
           intros n' Hn'. by rewrite Hname in Hn'.
        -- split; [|done]. intros Hin. apply (HI _ Hin).
           apply elem_of_union. left. by apply elem_of_singleton.
        -- done.
        -- intros i [->|Hin]%elem_of_cons; [done|].
           intros HiI. apply (HI i Hin), elem_of_union. by right.
        -- done.
      * intros (Hall & [Hai Hndi] & Hndn & HI & HN).
        apply Forall_cons in Hall as [_ Hall].
        split; [done|]. split; [done|]. split; [done|]. split; [|done].
        intros i Hin. apply not_elem_of_union. split.
        -- apply not_elem_of_singleton. by intros ->.
        -- apply HI. by constructor.
  - cbn. split; [done|]. intros (Hall & _).
    by apply Forall_cons in Hall as [(c & a & [=] & _) _].
Qed.

(** X15: [validateConfig] returns [true] exactly when a config is loaded,
    its [portals] is an array, no entry is empty, every entry has a nonzero
    [portalId], no two entries share a [portalId], no two entries share a
    nonempty [name], and no nonempty [name] contains white space or is the
    name of a property of [Object.prototype] (such a name reads as already
    present from the empty hash). *)
Theorem validateConfig_true_iff (_config : option CLIConfig_DEPRECATED) :
  validateConfig has_whitespace _config = true
  ↔ ∃ config accounts,
      _config = Some config ∧ portals config = Some accounts ∧
      Forall (entry_valid has_whitespace) accounts ∧
      NoDup (account_ids accounts) ∧
      NoDup (account_names accounts).
Proof.
  unfold validateConfig. destruct _config as [config|].
  2:{ split; [done | by intros (? & ? & [=] & _)]. }
  destruct (portals config) as [accounts|] eqn:Hportals.
  2:{ split; [done | by intros (? & ? & [= <-] & ? & _); congruence]. }
  rewrite every_account_valid_iff. split.
  - intros (Hall & Hi & Hn & _). by exists config, accounts.
  - intros (c & a & [= <-] & Ha & Hall & Hi & Hn).
    rewrite Hportals in Ha. injection Ha as <-.
    split; [done|]. split; [done|]. split; [done|].
    split; intros ? _; apply not_elem_of_empty.
Qed.

End ValidateConfigProperties.

Lemma account_names_cons (cfg : CLIAccount_DEPRECATED)
    (rest : list (option CLIAccount_DEPRECATED)) :
  account_names (Some cfg :: rest) =
    match truthy_name cfg with
    | Some n => n :: account_names rest
    | None => account_names rest
    end.
Proof. unfold account_names. cbn. by destruct (truthy_name cfg). Qed.

(** X16: on a loaded config whose [portals] array has no empty entry,
    [accountNameExistsInConfig] returns whether some entry has the given name
    as its nonempty [name]; in particular it returns [false] for the empty
    name even when an entry has an empty name. *)
Theorem accountNameExistsInConfig_iff (config : CLIConfig_DEPRECATED)
    (accounts : list (option CLIAccount_DEPRECATED)) (wanted : string) :
  portals config = Some accounts →
  Forall is_Some accounts →
  accountNameExistsInConfig (Some config) wanted
    = Some (bool_decide (wanted ∈ account_names accounts))
  ∧ accountNameExistsInConfig (Some config) "" = Some false.
Proof.
  intros Hportals Hall. unfold accountNameExistsInConfig. rewrite Hportals.
  clear Hportals.
  assert (Hsome : ∀ w, some_account_named accounts w
                       = Some (bool_decide (w ∈ account_names accounts))).
  { intros w. induction Hall as [|entry rest [cfg ->] _ IH]; [done|].
    cbn [some_account_named]. rewrite account_names_cons.
    destruct (truthy_name cfg) as [n|]; [|done].
    destruct (String.eqb_spec n w) as [->|Hne].
    - by rewrite bool_decide_eq_true_2 by constructor.
    - rewrite IH. f_equal. apply bool_decide_ext. split.
      + by constructor.
      + by intros [?|?]%elem_of_cons. }
  split; [apply Hsome|]. rewrite Hsome. f_equal.
  apply bool_decide_eq_false_2. unfold account_names.
  intros (entry & _ & Hentry)%list_elem_of_omap.
  destruct entry as [cfg|]; [|done]. cbn in Hentry.
  unfold truthy_name in Hentry.
  destruct (name cfg) as [n|]; [|done].
  destruct (String.eqb_spec n ""); [done|]. by injection Hentry as ->.
Qed.

(** ** Instances *)

Lemma getOrderedAccount_keys_witness :
  keys (getOrderedAccount [("authType", JStr "apikey"); ("apiKey", JStr "k");
                           ("accountId", JNum 7); ("env", JStr "prod")])
    = ["name"; "accountId"; "env"; "authType"; "apiKey"]
  ∧ NoDup (keys (getOrderedAccount
                   [("authType", JStr "apikey"); ("apiKey", JStr "k");
                    ("accountId", JNum 7); ("env", JStr "prod")])).
Proof.
  destruct (getOrderedAccount_keys
              [("authType", JStr "apikey"); ("apiKey", JStr "k");
               ("accountId", JNum 7); ("env", JStr "prod")]) as [Hkeys Hnd].
  - repeat constructor.
  - split; [exact Hkeys|]. apply Hnd. by_decide.
Defined.

Lemma getOrderedConfig_values_witness :
  prop (settings (getOrderedConfig
                    {| settings := [("httpTimeout", JNum 3000);
                                    ("defaultAccount", JStr "");
                                    ("env", JStr "qa")];
                       accountObjects := [] |})) "env" = JStr "qa"
  ∧ prop (settings (getOrderedConfig
                      {| settings := [("httpTimeout", JNum 3000);
                                      ("defaultAccount", JStr "");
                                      ("env", JStr "qa")];
                         accountObjects := [] |})) "defaultAccount"
    = JUndefined.
Proof.
  destruct (getOrderedConfig_values
              {| settings := [("httpTimeout", JNum 3000);
                              ("defaultAccount", JStr "");
                              ("env", JStr "qa")];
                 accountObjects := [] |} "env")
    as (Henv & Hdefault & _); [done | done |].
  split; [exact Henv | exact Hdefault].
Defined.

Lemma accountNameExistsInConfig_iff_witness :
  accountNameExistsInConfig
    (Some {| portals := Some [Some {| portalId := Some 1%Z;
                                      name := Some "dev" |};
                              Some {| portalId := Some 2%Z;
                                      name := Some "" |}] |})
    "dev" = Some true.
Proof.
  refine (proj1 (accountNameExistsInConfig_iff
                   {| portals := Some [Some {| portalId := Some 1%Z;
                                               name := Some "dev" |};
                                       Some {| portalId := Some 2%Z;
                                               name := Some "" |}] |}
                   _ "dev" eq_refl _)).
  repeat constructor; by eexists.
Defined.
